(** * Vietnamese Sign Language converter: categorisation, reordering,
    vocabulary substitution and dictionary loading.

    Shallow embedding of the two converter classes of the repository:
    - [Core]   : src/src/core/sign_language_converter.py (time-aware variant,
                 used by src/src/api/main.py);
    - [Legacy] : src/sign_language_converter.py (used by src/app.py).

    Python strings are modelled as Rocq [string]s holding their UTF-8 bytes;
    the operations the code applies ([" " in s], [s.replace(" ", "_")],
    [s.split("=", 1)], [s.startswith("#")]) act on the ASCII bytes ' ', '_',
    '=' and '#', which never occur inside a multi-byte UTF-8 sequence, so the
    byte view agrees with Python's code-point view.  The Unicode tables behind
    [str.lower], [str.upper] and [str.strip] are not reproduced: they are
    parameters ([lower], [upper], [strip]) of the development: the general
    theorems hold for all of them, and the concrete runs use the ASCII
    instances defined below. *)

From Stdlib Require Import String Ascii List Bool Arith Lia.
From stdpp Require Import base gmap strings list.
Import ListNotations.
Open Scope string_scope.
Open Scope list_scope.

(** ** String helpers used by the converter *)
Module Text.

(** [c in s] for a one-character needle. *)
Fixpoint contains_char (c : ascii) (s : string) : bool :=
  match s with
  | EmptyString => false
  | String a s' => Ascii.eqb a c || contains_char c s'
  end.

(** [s.replace(a, b)] for one-character [a] and [b]. *)
Fixpoint replace_char (a b : ascii) (s : string) : string :=
  match s with
  | EmptyString => EmptyString
  | String x s' => String (if Ascii.eqb x a then b else x) (replace_char a b s')
  end.

(** [s.split(c, 1)] when [c in s]: the text before the first [c] and the
    text after it. *)
Fixpoint split_once (c : ascii) (s : string) : string * string :=
  match s with
  | EmptyString => (EmptyString, EmptyString)
  | String x s' =>
      if Ascii.eqb x c then (EmptyString, s')
      else let '(l, r) := split_once c s' in (String x l, r)
  end.

(** [s.startswith(c)] for a one-character prefix. *)
Definition starts_with_char (c : ascii) (s : string) : bool :=
  match s with
  | EmptyString => false
  | String x _ => Ascii.eqb x c
  end.

(** Python truthiness of a string. *)
Definition nonempty (s : string) : bool :=
  match s with EmptyString => false | _ => true end.

(** [" ".join(ws)]. *)
Fixpoint join_space (ws : list string) : string :=
  match ws with
  | [] => EmptyString
  | [w] => w
  | w :: ws' => String.append w (String.append " " (join_space ws'))
  end.

(** ASCII instances of [str.lower], [str.upper] and [str.strip]; they agree
    with Python on ASCII text and serve to run the model on examples. *)
Definition ascii_lower_char (a : ascii) : ascii :=
  let n := nat_of_ascii a in
  if Nat.leb 65 n && Nat.leb n 90 then ascii_of_nat (n + 32)%nat else a.

Definition ascii_upper_char (a : ascii) : ascii :=
  let n := nat_of_ascii a in
  if Nat.leb 97 n && Nat.leb n 122 then ascii_of_nat (n - 32)%nat else a.

Fixpoint map_string (f : ascii -> ascii) (s : string) : string :=
  match s with
  | EmptyString => EmptyString
  | String a s' => String (f a) (map_string f s')
  end.

Definition ascii_lower : string -> string := map_string ascii_lower_char.
Definition ascii_upper : string -> string := map_string ascii_upper_char.

Definition is_ascii_space (a : ascii) : bool :=
  let n := nat_of_ascii a in Nat.eqb n 32 || (Nat.leb 9 n && Nat.leb n 13).

Fixpoint lstrip (s : string) : string :=
  match s with
  | EmptyString => EmptyString
  | String a s' => if is_ascii_space a then lstrip s' else s
  end.

Fixpoint rev_string (s : string) (acc : string) : string :=
  match s with
  | EmptyString => acc
  | String a s' => rev_string s' (String a acc)
  end.

Definition ascii_strip (s : string) : string :=
  rev_string (lstrip (rev_string (lstrip s) EmptyString)) EmptyString.

End Text.
Import Text.

(** ** Data model shared by both converters *)

(** A POS-tagged word [(word, pos)] as produced by the tagger. *)
Definition token : Type := (string * string)%type.

(** The keys of the [categories] dict. *)
Inductive bucket :=
  | Subjects | Objects | Verbs | Adjectives | Adverbs
  | Numbers | Pronouns | Prepositions | TimeExpressions | Others.

Global Instance bucket_eq_dec : EqDecision bucket.
Proof. solve_decision. Defined.

(** The [categories] dict: every key starts with an empty list. *)
Definition categories : Type := bucket -> list token.

Definition empty_categories : categories := fun _ => [].

(** [categories[b].append(t)]. *)
Definition append_to (c : categories) (b : bucket) (t : token) : categories :=
  fun b' => if decide (b' = b) then c b' ++ [t] else c b'.

(** The sign dictionary [Dict[str, str]]. *)
Abbreviation dictionary := (gmap string string).

(** Lookup key of [_convert_vocabulary] / [_create_word_details]:
    [word.lower().replace(" ", "_")]. *)
Definition normalize (lower : string -> string) (word : string) : string :=
  replace_char " " "_" (lower word).

(** Where [_load_dictionary_from_file] reads from: the file is missing, or
    it is opened and [lines] are read, after which the read either finishes
    ([raises = false]) or an exception escapes the loop ([raises = true]:
    open error, decoding error, ...). *)
Inductive dict_source :=
  | FileMissing
  | FileRead (lines : list string) (raises : bool).

(** ** The time-aware converter (src/src/core/sign_language_converter.py) *)
Module Core.
Section Core.
Variable lower upper strip : string -> string.

(** [_is_time_expression]. *)
Definition time_words : list string :=
  ["hôm nay"; "ngày mai"; "hôm qua"; "tuần này"; "tháng này"; "sáng";
   "chiều"; "tối"; "đêm"; "bây giờ"; "lúc này"].

Definition is_time_expression (word : string) : bool :=
  existsb (String.eqb word) time_words.

(** The branch of the if/elif chain of [_categorize_words] taken by one
    token, given the categories built so far. *)
Definition classify (c : categories) (t : token) : bucket :=
  let '(word, pos) := t in
  let word_lower := lower word in
  if String.eqb pos "PRON" then Pronouns
  else if String.eqb pos "NOUN" || String.eqb pos "PROPN" then
    if Nat.eqb (length (c Subjects)) 0 && Nat.eqb (length (c Verbs)) 0
    then Subjects else Objects
  else if String.eqb pos "VERB" then Verbs
  else if String.eqb pos "ADJ" then Adjectives
  else if String.eqb pos "ADV" then Adverbs
  else if String.eqb pos "NUM" then Numbers
  else if String.eqb pos "ADP" then Prepositions
  else if is_time_expression word_lower then TimeExpressions
  else Others.

(** One iteration of the loop of [_categorize_words]. *)
Definition categorize_step (c : categories) (t : token) : categories :=
  append_to c (classify c t) t.

(** [_categorize_words]. *)
Definition categorize_words (ws : list token) : categories :=
  fold_left categorize_step ws empty_categories.

(** [_reorder_for_sign_language]. *)
Definition reorder_for_sign_language (c : categories) : list token :=
  c TimeExpressions ++ c Pronouns ++ c Subjects ++ c Adjectives ++
  c Numbers ++ c Objects ++ c Verbs ++ c Adverbs ++ c Prepositions ++
  c Others.

(** One line of the file loop of [_load_dictionary_from_file]. *)
Definition load_line (dict : dictionary) (line0 : string) : dictionary :=
  let line := strip line0 in
  if negb (nonempty line) || starts_with_char "#" line then dict
  else if contains_char "=" line then
    let '(k, v) := split_once "=" line in
    let vietnamese_word := lower (strip k) in
    let sign_word := upper (strip v) in
    if nonempty vietnamese_word && nonempty sign_word
    then <[vietnamese_word := sign_word]> dict
    else dict
  else dict.

(** [_get_fallback_dictionary]. *)
Definition get_fallback_dictionary : dictionary :=
  list_to_map
    [("tôi", "TÔI"); ("bạn", "BẠN"); ("họ", "HỌ");
     ("chúng tôi", "CHÚNG-TÔI"); ("chúng ta", "CHÚNG-TA");
     ("đi", "ĐI"); ("ăn", "ĂN"); ("học", "HỌC"); ("làm", "LÀM"); ("nói", "NÓI");
     ("một", "1"); ("hai", "2"); ("ba", "3"); ("bốn", "4"); ("năm", "5");
     ("không", "KHÔNG"); ("có", "CÓ"); ("rất", "RẤT"); ("và", "VÀ")].

(** [_load_dictionary_from_file]. *)
Definition load_dictionary_from_file (src : dict_source) : dictionary :=
  match src with
  | FileMissing => get_fallback_dictionary
  | FileRead lines false => fold_left load_line lines ∅
  | FileRead _ true => get_fallback_dictionary
  end.

(** The converter object: [is_initialized] and [basic_signs]. *)
Record converter := { is_initialized : bool; basic_signs : dictionary }.

(** [__init__] / [_init_conversion_rules]. *)
Definition init (src : dict_source) : converter :=
  {| is_initialized := true; basic_signs := load_dictionary_from_file src |}.

(** One entry of [_create_word_details]. *)
Record word_detail := {
  wd_index : nat;
  wd_original_word : string;
  wd_pos_tag : string;
  wd_has_dictionary_definition : bool;
  wd_dictionary_action : string;
  wd_in_dictionary : bool }.

Definition word_detail_of (signs : dictionary) (index : nat) (t : token)
  : word_detail :=
  let '(word, pos) := t in
  let normalized_word := normalize lower word in
  match signs !! normalized_word with
  | Some dictionary_match =>
      {| wd_index := index + 1; wd_original_word := word; wd_pos_tag := pos;
         wd_has_dictionary_definition := true;
         wd_dictionary_action := dictionary_match;
         wd_in_dictionary := true |}
  | None =>
      {| wd_index := index + 1; wd_original_word := word; wd_pos_tag := pos;
         wd_has_dictionary_definition := false;
         wd_dictionary_action :=
           String.append (upper word) (String.append "[" (String.append pos "]"));
         wd_in_dictionary := false |}
  end.

(** [for index, (word, pos) in enumerate(pos_tagged_words)], from [index]. *)
Fixpoint details_from (signs : dictionary) (index : nat) (ws : list token)
  : list word_detail :=
  match ws with
  | [] => []
  | t :: ws' => word_detail_of signs index t :: details_from signs (S index) ws'
  end.

(** [_create_word_details]. *)
Definition create_word_details (signs : dictionary) (ws : list token)
  : list word_detail := details_from signs 0 ws.

(** [_create_analysis]. *)
Record analysis := {
  word_count : nat;
  reordered_count : nat;
  sc_subjects : nat;
  sc_verbs : nat;
  sc_objects : nat;
  sc_adjectives : nat;
  sc_time_expressions : nat;
  sc_others : nat;
  original_order : string;
  sign_language_order : string;
  time_placement : string;
  adjective_placement : string;
  conversion_applied : bool }.

Definition create_analysis (original_words : list token)
  (categorized : categories) (final_sequence : list string) : analysis :=
  {| word_count := length original_words;
     reordered_count := length final_sequence;
     sc_subjects := length (categorized Subjects);
     sc_verbs := length (categorized Verbs);
     sc_objects := length (categorized Objects);
     sc_adjectives := length (categorized Adjectives);
     sc_time_expressions := length (categorized TimeExpressions);
     sc_others := length (categorized Others);
     original_order := "SVO (Subject-Verb-Object)";
     sign_language_order := "SOV (Subject-Object-Verb)";
     time_placement := "Beginning of sentence";
     adjective_placement := "After subject";
     conversion_applied := true |}.

(** The dict returned by [convert_to_sign_language] on success. *)
Record conversion_result := {
  original_sentence : string;
  sign_language_sequence : list string;
  structure_analysis : analysis;
  pos_analysis : categories;
  word_details : list word_detail;
  reorder_strategy : string }.

(** [convert_to_sign_language]: [inl] is the [{"error": ...}] dict. *)
Definition convert_to_sign_language (cv : converter) (ws : list token)
  : string + conversion_result :=
  if negb cv.(is_initialized)
  then inl "Sign Language Converter is not initialized"
  else
    let categorized_words := categorize_words ws in
    let reordered_structure := reorder_for_sign_language categorized_words in
    let final_sequence := map fst reordered_structure in
    let details := create_word_details cv.(basic_signs) ws in
    let an := create_analysis ws categorized_words final_sequence in
    inr {| original_sentence := join_space (map fst ws);
           sign_language_sequence := final_sequence;
           structure_analysis := an;
           pos_analysis := categorized_words;
           word_details := details;
           reorder_strategy := "Vietnamese SVO → Sign Language SOV" |}.

End Core.
End Core.

(** ** The legacy converter (src/sign_language_converter.py) *)
Module Legacy.
Section Legacy.
Variable lower upper strip : string -> string.

(** The branch of the if/elif chain of [_categorize_words]; this variant has
    no [time_expressions] key, so [TimeExpressions] is never chosen. *)
Definition classify (c : categories) (t : token) : bucket :=
  let '(word, pos) := t in
  if String.eqb pos "PRON" then Pronouns
  else if String.eqb pos "NOUN" || String.eqb pos "PROPN" then
    if Nat.eqb (length (c Subjects)) 0 && Nat.eqb (length (c Verbs)) 0
    then Subjects else Objects
  else if String.eqb pos "VERB" then Verbs
  else if String.eqb pos "ADJ" then Adjectives
  else if String.eqb pos "ADV" then Adverbs
  else if String.eqb pos "NUM" then Numbers
  else if String.eqb pos "ADP" then Prepositions
  else Others.

Definition categorize_step (c : categories) (t : token) : categories :=
  append_to c (classify c t) t.

Definition categorize_words (ws : list token) : categories :=
  fold_left categorize_step ws empty_categories.

(** [_reorder_for_sign_language]. *)
Definition reorder_for_sign_language (c : categories) : list token :=
  c Pronouns ++ c Subjects ++ c Adjectives ++ c Numbers ++ c Objects ++
  c Verbs ++ c Adverbs ++ c Prepositions ++ c Others.

(** [_convert_vocabulary]: [if k in d: d[k] else word.upper()]. *)
Definition convert_vocabulary (d : dictionary) (ws : list token) : list string :=
  map (fun '(word, _) =>
         match d !! normalize lower word with
         | Some sign => sign
         | None => upper word
         end) ws.

(** One line of the file loop of [_load_dictionary_from_file]; this variant
    neither lowercases the key nor uppercases the sign. *)
Definition load_line (dict : dictionary) (line0 : string) : dictionary :=
  let line := strip line0 in
  if negb (nonempty line) || starts_with_char "#" line then dict
  else if contains_char "=" line then
    let '(k, v) := split_once "=" line in
    let vietnamese_word := strip k in
    let sign_word := strip v in
    if nonempty vietnamese_word && nonempty sign_word
    then <[vietnamese_word := sign_word]> dict
    else dict
  else dict.

(** [_load_dictionary_from_file]: [FileNotFoundError] and any other
    exception are caught and the dict built so far is returned. *)
Definition load_dictionary_from_file (src : dict_source) : dictionary :=
  match src with
  | FileMissing => ∅
  | FileRead lines _ => fold_left load_line lines ∅
  end.

(** The converter object: [is_initialized] and [sign_dictionary]. *)
Record converter := { is_initialized : bool; sign_dictionary : dictionary }.

Definition init (src : dict_source) : converter :=
  {| is_initialized := true; sign_dictionary := load_dictionary_from_file src |}.

(** [reload_dictionary]: the new dict is built by the loader and then
    assigned to the attribute. *)
Definition reload_dictionary (cv : converter) (src : dict_source) : converter :=
  {| is_initialized := cv.(is_initialized);
     sign_dictionary := load_dictionary_from_file src |}.

Variable isupper : string -> bool.

(** [_create_analysis] of this variant. *)
Record analysis := {
  word_count : nat;
  sign_count : nat;
  sc_subjects : nat;
  sc_verbs : nat;
  sc_objects : nat;
  sc_adjectives : nat;
  sc_others : nat;
  reorder_applied : bool;
  vocabulary_mapped : nat }.

Definition create_analysis (signs : dictionary) (original_words : list token)
  (categorized : categories) (sign_sequence : list string) : analysis :=
  {| word_count := length original_words;
     sign_count := length sign_sequence;
     sc_subjects := length (categorized Subjects);
     sc_verbs := length (categorized Verbs);
     sc_objects := length (categorized Objects);
     sc_adjectives := length (categorized Adjectives);
     sc_others := length (categorized Others);
     reorder_applied := true;
     vocabulary_mapped :=
       length (List.filter (fun s => negb (isupper s) ||
                                existsb (String.eqb s) (map snd (map_to_list signs)))
                      sign_sequence) |}.

Record conversion_result := {
  original_sentence : string;
  sign_language_sequence : list string;
  structure_analysis : analysis;
  pos_analysis : categories }.

(** [convert_to_sign_language]. *)
Definition convert_to_sign_language (cv : converter) (ws : list token)
  : string + conversion_result :=
  if negb cv.(is_initialized)
  then inl "Sign Language Converter is not initialized"
  else
    let categorized_words := categorize_words ws in
    let reordered_structure := reorder_for_sign_language categorized_words in
    let sign_sequence := convert_vocabulary cv.(sign_dictionary) reordered_structure in
    let an := create_analysis cv.(sign_dictionary) ws categorized_words sign_sequence in
    inr {| original_sentence := join_space (map fst ws);
           sign_language_sequence := sign_sequence;
           structure_analysis := an;
           pos_analysis := categorized_words |}.

End Legacy.
End Legacy.

(** ** Classification trace

    Both [_categorize_words] loops have the shape
    [for t in ws: categories[classify(categories, t)].append(t)].
    [trace_from] records, for every token, the bucket chosen for it at the
    moment it is processed. *)
Section Trace.
Variable classify : categories -> token -> bucket.

Definition step_with (c : categories) (t : token) : categories :=
  append_to c (classify c t) t.

Fixpoint trace_from (c : categories) (ws : list token) : list (token * bucket) :=
  match ws with
  | [] => []
  | t :: ws' => (t, classify c t) :: trace_from (step_with c t) ws'
  end.

End Trace.

Definition core_trace (lower : string -> string) (ws : list token) :=
  trace_from (Core.classify lower) empty_categories ws.

Definition legacy_trace (ws : list token) :=
  trace_from Legacy.classify empty_categories ws.

(** Every key of the [categories] dict. *)
Definition all_buckets : list bucket :=
  [Subjects; Objects; Verbs; Adjectives; Adverbs; Numbers; Pronouns;
   Prepositions; TimeExpressions; Others].

(** The bucket order stated by the specification: time, pronoun, subject,
    adjective, number, object, verb, adverb, preposition, other. *)
Definition spec_bucket_order : list bucket :=
  [TimeExpressions; Pronouns; Subjects; Adjectives; Numbers; Objects; Verbs;
   Adverbs; Prepositions; Others].

(** Whether some token of [prefix] is tagged NOUN, PROPN or VERB. *)
Definition seen_noun_or_verb (prefix : list token) : bool :=
  existsb (fun t => String.eqb t.2 "NOUN" || String.eqb t.2 "PROPN" ||
                    String.eqb t.2 "VERB") prefix.

(** The bucket rule of the core classifier written as a function of the tag,
    the lowercased word and [seen_noun_or_verb] of the tokens before. *)
Definition amended_bucket_rule (lower : string -> string) (seen : bool)
  (t : token) : bucket :=
  let '(word, pos) := t in
  if String.eqb pos "PRON" then Pronouns
  else if String.eqb pos "NOUN" || String.eqb pos "PROPN" then
    if seen then Objects else Subjects
  else if String.eqb pos "VERB" then Verbs
  else if String.eqb pos "ADJ" then Adjectives
  else if String.eqb pos "ADV" then Adverbs
  else if String.eqb pos "NUM" then Numbers
  else if String.eqb pos "ADP" then Prepositions
  else if Core.is_time_expression (lower word) then TimeExpressions
  else Others.

(** ** Reload against concurrent lookups (legacy converter)

    Interleaving model of one thread running [reload_dictionary] and one
    thread running the lookup of [_convert_vocabulary] for one word, with
    Python bytecodes as the unit of atomicity.  The shared state is the
    attribute [self.sign_dictionary]; the loader's [dictionary] is a local
    of the reloading thread until the assignment publishes it.  The lookup
    reads the attribute twice: [normalized_word in self.sign_dictionary],
    then [self.sign_dictionary[normalized_word]]. *)
Module Concurrent.
Section Concurrent.
Variable lower upper strip : string -> string.

Inductive reload_pc :=
  | RLoading (acc : dictionary) (rest : list string)
  | RPublish (fresh : dictionary)
  | RDone.

Inductive lookup_outcome := Sign (s : string) | KeyError.

Inductive lookup_pc :=
  | LStart
  | LChecked (hit : bool)
  | LDone (o : lookup_outcome).

Record state := { store : dictionary; reloader : reload_pc; reader : lookup_pc }.

(** The reloading thread entering [_load_dictionary_from_file]. *)
Definition reload_start (src : dict_source) : reload_pc :=
  match src with
  | FileMissing => RPublish ∅
  | FileRead lines _ => RLoading ∅ lines
  end.

Definition initial (pre : dictionary) (src : dict_source) : state :=
  {| store := pre; reloader := reload_start src; reader := LStart |}.

(** The lookup of one word run alone on a mapping [d]. *)
Definition lookup_alone (d : dictionary) (word : string) : lookup_outcome :=
  match d !! normalize lower word with
  | Some sign => Sign sign
  | None => Sign (upper word)
  end.

Inductive step (word : string) : state -> state -> Prop :=
  | step_load_line acc l rest st rd :
      step word {| store := st; reloader := RLoading acc (l :: rest); reader := rd |}
                {| store := st; reloader := RLoading (Legacy.load_line strip acc l) rest;
                   reader := rd |}
  | step_load_end acc st rd :
      step word {| store := st; reloader := RLoading acc []; reader := rd |}
                {| store := st; reloader := RPublish acc; reader := rd |}
  | step_publish fresh st rd :
      step word {| store := st; reloader := RPublish fresh; reader := rd |}
                {| store := fresh; reloader := RDone; reader := rd |}
  | step_check st rl :
      step word {| store := st; reloader := rl; reader := LStart |}
                {| store := st; reloader := rl;
                   reader := LChecked (bool_decide (is_Some (st !! normalize lower word))) |}
  | step_fetch_hit st rl :
      step word {| store := st; reloader := rl; reader := LChecked true |}
                {| store := st; reloader := rl;
                   reader := LDone (match st !! normalize lower word with
                                    | Some sign => Sign sign
                                    | None => KeyError
                                    end) |}
  | step_fetch_miss st rl :
      step word {| store := st; reloader := rl; reader := LChecked false |}
                {| store := st; reloader := rl; reader := LDone (Sign (upper word)) |}.

(** The schedules of the repository's server.  [reload_dictionary] is
    called only by the [async def] handler of [POST /api/reload-dictionary]
    (src/app.py), and the lookup runs in the [async def] handler of
    [POST /api/convert-sign-language]; neither awaits inside the converter,
    so the event loop runs each converter call to its end once started and
    never switches between the lookup's two reads.  [serial_step] allows
    every step of [step] except a step of the reloading thread while the
    lookup is between its reads; the event loop's schedules are among its
    executions. *)
Inductive serial_step (word : string) (s s' : state) : Prop :=
  | serial_step_intro :
      step word s s' ->
      (forall hit, reader s = LChecked hit -> reloader s' = reloader s) ->
      serial_step word s s'.

End Concurrent.
End Concurrent.

(** ** POS tagger (src/src/core/tagger.py and src/tagger.py) *)
Module Tagger.

(** [tag_mapping] of [_convert_to_ud_tag] in src/src/core/tagger.py. *)
Definition core_tag_mapping : list (string * string) :=
  [("N", "NOUN"); ("Np", "PROPN"); ("Ny", "NOUN");
   ("V", "VERB"); ("Vb", "VERB"); ("Vu", "AUX");
   ("A", "ADJ"); ("Ab", "ADJ");
   ("R", "ADV"); ("Rb", "ADV");
   ("P", "PRON"); ("Pp", "PRON");
   ("E", "ADP"); ("Eb", "ADP");
   ("C", "CCONJ"); ("Cc", "CCONJ"); ("Cs", "SCONJ");
   ("L", "DET"); ("Lb", "DET");
   ("M", "NUM"); ("Mb", "NUM");
   ("CH", "PUNCT"); (".", "PUNCT"); (",", "PUNCT"); ("?", "PUNCT"); ("!", "PUNCT");
   ("T", "PART"); ("Tb", "PART");
   ("I", "INTJ");
   ("X", "X"); ("Fw", "X")].

(** [tag_mapping] of [_convert_to_ud_tag] in src/tagger.py: the same table
    except that ["Vu"] maps to ["VERB"]. *)
Definition legacy_tag_mapping : list (string * string) :=
  [("N", "NOUN"); ("Np", "PROPN"); ("Ny", "NOUN");
   ("V", "VERB"); ("Vb", "VERB"); ("Vu", "VERB");
   ("A", "ADJ"); ("Ab", "ADJ");
   ("R", "ADV"); ("Rb", "ADV");
   ("P", "PRON"); ("Pp", "PRON");
   ("E", "ADP"); ("Eb", "ADP");
   ("C", "CCONJ"); ("Cc", "CCONJ"); ("Cs", "SCONJ");
   ("L", "DET"); ("Lb", "DET");
   ("M", "NUM"); ("Mb", "NUM");
   ("CH", "PUNCT"); (".", "PUNCT"); (",", "PUNCT"); ("?", "PUNCT"); ("!", "PUNCT");
   ("T", "PART"); ("Tb", "PART");
   ("I", "INTJ");
   ("X", "X"); ("Fw", "X")].

(** [_convert_to_ud_tag]: [tag_mapping.get(underthesea_tag, "X")]. *)
Definition convert_to_ud_tag (tag_mapping : list (string * string))
  (underthesea_tag : string) : string :=
  default "X" ((list_to_map tag_mapping : gmap string string) !! underthesea_tag).

Section Tagger.
(** [underthesea.pos_tag]; [None] when the call raises. *)
Variable pos_tag : string -> option (list token).

(** [__init__]: the tagger is initialised when the probe [pos_tag("Xin chào")]
    returns a non-empty result, and not when it is empty or raises. *)
Definition init : bool :=
  match pos_tag "Xin chào" with
  | Some (_ :: _) => true
  | _ => false
  end.

(** [tag_sentence]: [[]] when the tagger is not initialised or [pos_tag]
    raises, otherwise every [(word, tag)] with its tag converted. *)
Definition tag_sentence (tag_mapping : list (string * string))
  (is_initialized : bool) (sentence : string) : list token :=
  if negb is_initialized then []
  else
    match pos_tag sentence with
    | Some pos_tags_result =>
        map (fun '(word, tag) => (word, convert_to_ud_tag tag_mapping tag))
            pos_tags_result
    | None => []
    end.

End Tagger.
End Tagger.

(** ** HTTP layer (src/src/api/main.py)

    An [HTTPException] is modelled as [(status_code, detail)].  The request
    body is a [TextRequest] (src/src/api/models.py), whose field
    [text: str = Field(..., min_length=1)] FastAPI validates before the
    handler runs: an empty [text] is answered with 422, whose body pydantic
    writes and the model leaves abstract.  The tagger and the converter are
    the singletons returned by [get_instance]; only their state enters the
    model.  The [processing_time] fields, read from the clock, are left
    out. *)
Module Api.
Section Api.
Variable lower upper strip : string -> string.
Variable pos_tag : string -> option (list token).

Definition http_error : Type := (nat * string)%type.

(** How a request to a [TextRequest] endpoint can fail. *)
Inductive response_error :=
  | request_validation_error
  | http_exception (e : http_error).

Definition status_code (e : response_error) : nat :=
  match e with
  | request_validation_error => 422
  | http_exception e => e.1
  end.

(** [TextRequest]: [min_length=1] on [text]. *)
Definition text_request_valid (text : string) : bool := nonempty text.

(** [validate_text_input]. *)
Definition validate_text_input (text : string) : http_error + string :=
  let text := strip text in
  if negb (nonempty text) then inl (400, "Please provide text input!")
  else inr text.

(** [check_component_initialization]: [Some] is the raised exception. *)
Definition check_component_initialization (is_initialized : bool)
  (component_name : string) : option http_error :=
  if negb is_initialized
  then Some (500, String.append "Error loading " (String.append component_name "!"))
  else None.

(** The [tag_counts] loop of [analyze_text]:
    [tag_counts[tag] = tag_counts.get(tag, 0) + 1]. *)
Definition count_tags (tagged_words : list token) : gmap string nat :=
  fold_left (fun tag_counts '(_, tag) =>
               <[tag := default 0 (tag_counts !! tag) + 1]> tag_counts)
            tagged_words ∅.

(** The clock-independent fields of [statistics]. *)
Record analysis_statistics := {
  total_words : nat;
  unique_tags : nat;
  tag_distribution : gmap string nat }.

(** [analyze_text] ([POST /api/analyze]) on the body's [text], request
    validation included: [inr (results, statistics)]. *)
Definition analyze_text (tagger_initialized : bool) (text : string)
  : response_error + (list token * analysis_statistics) :=
  if negb (text_request_valid text) then inl request_validation_error else
  match validate_text_input text with
  | inl e => inl (http_exception e)
  | inr text =>
      match check_component_initialization tagger_initialized "POS Tagger" with
      | Some e => inl (http_exception e)
      | None =>
          let tagged_words :=
            Tagger.tag_sentence pos_tag Tagger.core_tag_mapping tagger_initialized text in
          let tag_counts := count_tags tagged_words in
          inr (tagged_words,
               {| total_words := length tagged_words;
                  unique_tags := size tag_counts;
                  tag_distribution := tag_counts |})
      end
  end.

(** The fields of [SignLanguageResponse] filled by the endpoint. *)
Record sign_language_response := {
  resp_original_sentence : string;
  resp_pos_analysis : list token;
  resp_sign_language_sequence : list string;
  resp_structure_analysis : Core.analysis;
  resp_pos_structure : categories;
  resp_word_details : list Core.word_detail }.

(** [convert_to_sign_language] ([POST /api/convert-sign-language]) on the
    body's [text], request validation included.  When the
    converter answers with its [{"error": ...}] dict, the subscript
    [sign_result["structure_analysis"]] raises [KeyError], which the
    [except Exception] turns into a 500 response. *)
Definition convert_to_sign_language (tagger_initialized : bool)
  (cv : Core.converter) (text : string) : response_error + sign_language_response :=
  if negb (text_request_valid text) then inl request_validation_error else
  match validate_text_input text with
  | inl e => inl (http_exception e)
  | inr text =>
      match check_component_initialization tagger_initialized "POS Tagger" with
      | Some e => inl (http_exception e)
      | None =>
          match check_component_initialization (Core.is_initialized cv)
                  "Sign Language Converter" with
          | Some e => inl (http_exception e)
          | None =>
              let pos_tagged_words :=
                Tagger.tag_sentence pos_tag Tagger.core_tag_mapping tagger_initialized text in
              match Core.convert_to_sign_language lower upper cv pos_tagged_words with
              | inl _ => inl (http_exception (500, "Conversion error: 'structure_analysis'"))
              | inr sign_result =>
                  inr {| resp_original_sentence := Core.original_sentence sign_result;
                         resp_pos_analysis := pos_tagged_words;
                         resp_sign_language_sequence :=
                           Core.sign_language_sequence sign_result;
                         resp_structure_analysis := Core.structure_analysis sign_result;
                         resp_pos_structure := Core.pos_analysis sign_result;
                         resp_word_details := Core.word_details sign_result |}
              end
          end
      end
  end.

End Api.
End Api.

(** ** Dictionary report of the legacy converter
    ([get_sign_dictionary_info] of src/sign_language_converter.py) *)
Module LegacyInfo.

Definition pronouns : list string :=
  ["tôi"; "mình"; "em"; "bạn"; "anh"; "chị"; "cô"; "họ"; "chúng_ta"; "chúng_tôi"].

Definition verbs : list string :=
  ["là"; "có"; "không"; "đi"; "đến"; "về"; "tới"; "ăn"; "uống"; "ngủ"; "làm";
   "học"; "đọc"; "viết"; "nói"; "nghe"; "nhìn"; "thấy"; "yêu"; "thích"; "ghét";
   "mua"; "bán"; "cho"; "lấy"].

Definition adjectives : list string :=
  ["đẹp"; "xấu"; "tốt"; "lớn"; "nhỏ"; "cao"; "thấp"; "dài"; "ngắn"; "rộng";
   "hẹp"; "nóng"; "lạnh"; "ấm"; "mát"; "vui"; "buồn"; "giận"; "hạnh_phúc"].

Definition time_words : list string :=
  ["hôm_nay"; "ngày_mai"; "hôm_qua"; "sáng"; "trưa"; "chiều"; "tối"; "tuần";
   "tháng"; "năm"].

Definition question_words : list string :=
  ["gì"; "ai"; "đâu"; "khi_nào"; "như_thế_nào"; "tại_sao"].

Definition numbers : list string :=
  ["một"; "hai"; "ba"; "bốn"; "năm"; "sáu"; "bảy"; "tám"; "chín"; "mười"].

(** The keys of the local [categories] dict. *)
Inductive info_category :=
  | IPronouns | IVerbs | IAdjectives | INouns | ITimeWords | IQuestionWords
  | INumbers | IOthers.

Global Instance info_category_eq_dec : EqDecision info_category.
Proof. solve_decision. Defined.

Definition member (word : string) (l : list string) : bool :=
  existsb (String.eqb word) l.

(** The if/elif chain of the loop over the keys. *)
Definition info_category_of (word : string) : info_category :=
  if member word pronouns then IPronouns
  else if member word verbs then IVerbs
  else if member word adjectives then IAdjectives
  else if member word time_words then ITimeWords
  else if member word question_words then IQuestionWords
  else if member word numbers then INumbers
  else INouns.

(** [categories[...].append(word)] for every key in iteration order. *)
Definition categorize_keys (keys : list string) : info_category -> list string :=
  fold_left (fun cats word =>
               let k := info_category_of word in
               fun k' => if decide (k' = k) then cats k' ++ [word] else cats k')
            keys (fun _ => []).

Record dictionary_info := {
  total_entries : nat;
  n_pronouns : nat;
  n_verbs : nat;
  n_adjectives : nat;
  n_nouns : nat;
  n_time_words : nat;
  n_question_words : nat;
  n_numbers : nat;
  sample_pronouns : list string;
  sample_verbs : list string;
  sample_adjectives : list string;
  sample_nouns : list string;
  dictionary_source : string;
  note : string }.

(** [get_sign_dictionary_info], given [keys = list(self.sign_dictionary.keys())]
    in iteration order; [len(self.sign_dictionary)] is [len(keys)]. *)
Definition get_sign_dictionary_info (keys : list string) : dictionary_info :=
  let cats := categorize_keys keys in
  {| total_entries := length keys;
     n_pronouns := length (cats IPronouns);
     n_verbs := length (cats IVerbs);
     n_adjectives := length (cats IAdjectives);
     n_nouns := length (cats INouns);
     n_time_words := length (cats ITimeWords);
     n_question_words := length (cats IQuestionWords);
     n_numbers := length (cats INumbers);
     sample_pronouns := take 5 (cats IPronouns);
     sample_verbs := take 5 (cats IVerbs);
     sample_adjectives := take 5 (cats IAdjectives);
     sample_nouns := take 5 (cats INouns);
     dictionary_source := "sign_language_dictionary.txt";
     note := "Dictionary can be updated by editing the sign_language_dictionary.txt file" |}.

End LegacyInfo.

(** ** The entry a dictionary file line defines

    Both loaders parse a line the same way and differ in how they normalise
    the two sides: [line_entry key_of sign_of strip line] is
    [Some (key, sign)] exactly when the loop body assigns
    [dictionary[key] = sign] for [line]. *)
Definition line_entry (key_of sign_of strip : string -> string) (line0 : string)
  : option (string * string) :=
  let line := strip line0 in
  if negb (nonempty line) || starts_with_char "#" line then None
  else if contains_char "=" line then
    let '(k, v) := split_once "=" line in
    let vietnamese_word := key_of k in
    let sign_word := sign_of v in
    if nonempty vietnamese_word && nonempty sign_word
    then Some (vietnamese_word, sign_word)
    else None
  else None.

(** * Properties *)

(** ** Categorisation as a filter of the trace *)
Section TraceFacts.
Variable classify : categories -> token -> bucket.

Lemma fold_step_with_bucket (ws : list token) (c : categories) (b : bucket) :
  fold_left (step_with classify) ws c b =
  c b ++ map fst (filter (fun p : token * bucket => p.2 = b) (trace_from classify c ws)).
Proof.
  revert c. induction ws as [|t ws IH]; intros c; simpl.
  - by rewrite app_nil_r.
  - rewrite IH, filter_cons. unfold step_with, append_to.
    destruct (decide (b = classify c t)) as [->|Hne]; simpl.
    + rewrite decide_True by done. simpl. by rewrite <- app_assoc.
    + rewrite decide_False by congruence. done.
Qed.

Lemma trace_from_tokens (ws : list token) (c : categories) :
  map fst (trace_from classify c ws) = ws.
Proof.
  revert c. induction ws as [|t ws IH]; intros c; simpl; [done|]. by rewrite IH.
Qed.

Lemma map_fst_filter_sublist (P : token * bucket -> Prop)
  `{forall p, Decision (P p)} (tr : list (token * bucket)) :
  map fst (filter P tr) `sublist_of` map fst tr.
Proof.
  induction tr as [|p tr IH]; simpl; [done|].
  rewrite filter_cons. destruct (decide (P p)); simpl.
  - by apply sublist_skip.
  - by apply sublist_cons.
Qed.

End TraceFacts.

Lemma core_categorize_fold (lower : string -> string) (ws : list token) :
  Core.categorize_words lower ws =
  fold_left (step_with (Core.classify lower)) ws empty_categories.
Proof. reflexivity. Qed.

Lemma legacy_categorize_fold (ws : list token) :
  Legacy.categorize_words ws = fold_left (step_with Legacy.classify) ws empty_categories.
Proof. reflexivity. Qed.

Lemma core_bucket_trace (lower : string -> string) (ws : list token) (b : bucket) :
  Core.categorize_words lower ws b =
  map fst (filter (fun p : token * bucket => p.2 = b) (core_trace lower ws)).
Proof. by rewrite core_categorize_fold, fold_step_with_bucket. Qed.

Lemma legacy_bucket_trace (ws : list token) (b : bucket) :
  Legacy.categorize_words ws b =
  map fst (filter (fun p : token * bucket => p.2 = b) (legacy_trace ws)).
Proof. by rewrite legacy_categorize_fold, fold_step_with_bucket. Qed.

Lemma legacy_classify_not_time (c : categories) (t : token) :
  Legacy.classify c t <> TimeExpressions.
Proof.
  destruct t as [w p]. unfold Legacy.classify.
  repeat (case_match; try discriminate).
Qed.

Lemma legacy_no_time_bucket (ws : list token) :
  Legacy.categorize_words ws TimeExpressions = [].
Proof.
  rewrite legacy_bucket_trace. unfold legacy_trace.
  generalize empty_categories as c.
  induction ws as [|t ws IH]; intros c; simpl; [done|].
  rewrite filter_cons, decide_False by apply legacy_classify_not_time. apply IH.
Qed.

Lemma core_reorder_concat (c : categories) :
  Core.reorder_for_sign_language c = concat (map c spec_bucket_order).
Proof. unfold Core.reorder_for_sign_language. simpl. by rewrite app_nil_r. Qed.

Lemma legacy_reorder_concat (c : categories) :
  c TimeExpressions = [] ->
  Legacy.reorder_for_sign_language c = concat (map c spec_bucket_order).
Proof.
  intros Ht. unfold Legacy.reorder_for_sign_language. simpl. rewrite Ht, app_nil_r.
  reflexivity.
Qed.

(** ** Every token lands in exactly one bucket *)
Lemma append_to_buckets_perm (c : categories) (b : bucket) (t : token) :
  concat (map (append_to c b t) all_buckets) ≡ₚ concat (map c all_buckets) ++ [t].
Proof.
  destruct b; unfold append_to; simpl; rewrite !app_nil_r;
    repeat (rewrite decide_True by done || rewrite decide_False by done);
    rewrite <- ?app_assoc; repeat apply Permutation_app_head;
    try reflexivity; rewrite ?(app_assoc _ _ [t]); apply Permutation_app_comm.
Qed.

Lemma fold_buckets_perm (classify : categories -> token -> bucket)
  (ws : list token) (c : categories) :
  concat (map (fold_left (step_with classify) ws c) all_buckets) ≡ₚ
  concat (map c all_buckets) ++ ws.
Proof.
  revert c. induction ws as [|t ws IH]; intros c; cbn [fold_left].
  - rewrite app_nil_r. reflexivity.
  - rewrite IH. unfold step_with. rewrite append_to_buckets_perm.
    rewrite <- app_assoc. reflexivity.
Qed.

Lemma buckets_perm_of_fold (classify : categories -> token -> bucket)
  (ws : list token) :
  concat (map (fold_left (step_with classify) ws empty_categories) all_buckets) ≡ₚ ws.
Proof. rewrite fold_buckets_perm. reflexivity. Qed.

Lemma concat_map_perm (c : categories) (bs1 bs2 : list bucket) :
  bs1 ≡ₚ bs2 -> concat (map c bs1) ≡ₚ concat (map c bs2).
Proof.
  induction 1 as [|b bs1 bs2 _ IH|b1 b2 bs|bs1 bs2 bs3 _ IH1 _ IH2]; simpl.
  - done.
  - by rewrite IH.
  - rewrite !app_assoc. by rewrite (Permutation_app_comm (c b2)).
  - by rewrite IH1.
Qed.

Lemma spec_order_perm_all (c : categories) :
  concat (map c spec_bucket_order) ≡ₚ concat (map c all_buckets).
Proof.
  apply concat_map_perm.
  apply (bool_decide_unpack (spec_bucket_order ≡ₚ all_buckets)). vm_compute. exact I.
Qed.

Lemma bucket_sizes_sum (c : categories) :
  list_sum (map (fun b => length (c b)) all_buckets) = length (concat (map c all_buckets)).
Proof. simpl. rewrite !length_app. simpl. lia. Qed.

(** ** The subject / verb flags of the classification pass *)

(** The tags [seen_noun_or_verb] looks for. *)
Definition noun_or_verb_tag (p : string) : bool :=
  String.eqb p "NOUN" || String.eqb p "PROPN" || String.eqb p "VERB".

Lemma core_classify_other_tag (lower : string -> string) (c : categories)
  (w p : string) :
  noun_or_verb_tag p = false ->
  Core.classify lower c (w, p) <> Subjects /\ Core.classify lower c (w, p) <> Verbs.
Proof.
  unfold noun_or_verb_tag. intros H.
  apply orb_false_iff in H as [H H3]. apply orb_false_iff in H as [H1 H2].
  unfold Core.classify. rewrite H1, H2, H3. simpl.
  repeat (case_match; try (split; discriminate)).
Qed.

Lemma core_classify_noun (lower : string -> string) (c : categories) (w p : string) :
  String.eqb p "NOUN" || String.eqb p "PROPN" = true ->
  Core.classify lower c (w, p) =
  if Nat.eqb (length (c Subjects)) 0 && Nat.eqb (length (c Verbs)) 0
  then Subjects else Objects.
Proof.
  intros H. unfold Core.classify. rewrite H.
  destruct (String.eqb_spec p "PRON") as [->|_]; [discriminate|done].
Qed.

Lemma core_classify_verb (lower : string -> string) (c : categories) (w : string) :
  Core.classify lower c (w, "VERB") = Verbs.
Proof. reflexivity. Qed.

Lemma core_step_flags (lower : string -> string) (c : categories) (t : token) :
  (step_with (Core.classify lower) c t Subjects = [] /\
   step_with (Core.classify lower) c t Verbs = []) <->
  (c Subjects = [] /\ c Verbs = [] /\ noun_or_verb_tag t.2 = false).
Proof.
  destruct t as [w p]. unfold step_with, append_to. cbn [snd].
  destruct (noun_or_verb_tag p) eqn:Hnv.
  - unfold noun_or_verb_tag in Hnv.
    destruct (String.eqb p "NOUN" || String.eqb p "PROPN") eqn:Hn.
    + rewrite (core_classify_noun lower c w p Hn).
      destruct (c Subjects) as [|x xs], (c Verbs) as [|y ys]; simpl;
        repeat (rewrite decide_True by done || rewrite decide_False by done);
        split; intros; destruct_and?; try discriminate;
        exfalso; eapply app_cons_not_nil; eauto.
    + simpl in Hnv. apply String.eqb_eq in Hnv. subst p.
      rewrite core_classify_verb.
      rewrite decide_False by done. rewrite decide_True by done.
      split; intros; destruct_and?; try discriminate.
      exfalso; eapply app_cons_not_nil; eauto.
  - destruct (core_classify_other_tag lower c w p Hnv) as [Hs Hv].
    rewrite !decide_False by congruence. naive_solver.
Qed.

Lemma core_fold_flags (lower : string -> string) (ws : list token) (c : categories) :
  (fold_left (step_with (Core.classify lower)) ws c Subjects = [] /\
   fold_left (step_with (Core.classify lower)) ws c Verbs = []) <->
  (c Subjects = [] /\ c Verbs = [] /\ seen_noun_or_verb ws = false).
Proof.
  revert c. induction ws as [|t ws IH]; intros c; cbn [fold_left].
  - simpl. naive_solver.
  - rewrite IH. pose proof (core_step_flags lower c t) as Hs.
    unfold seen_noun_or_verb. simpl. unfold noun_or_verb_tag in Hs.
    rewrite orb_false_iff. naive_solver.
Qed.

Lemma core_categorize_flags (lower : string -> string) (prefix : list token) :
  (Core.categorize_words lower prefix Subjects = [] /\
   Core.categorize_words lower prefix Verbs = []) <->
  seen_noun_or_verb prefix = false.
Proof. rewrite core_categorize_fold, core_fold_flags. simpl. naive_solver. Qed.

Lemma trace_from_app (classify : categories -> token -> bucket)
  (l1 l2 : list token) (c : categories) :
  trace_from classify c (l1 ++ l2) =
  trace_from classify c l1 ++ trace_from classify (fold_left (step_with classify) l1 c) l2.
Proof.
  revert c. induction l1 as [|t l1 IH]; intros c; simpl; [done|]. by rewrite IH.
Qed.

Lemma legacy_classify_noun (c : categories) (w p : string) :
  String.eqb p "NOUN" || String.eqb p "PROPN" = true ->
  Legacy.classify c (w, p) =
  if Nat.eqb (length (c Subjects)) 0 && Nat.eqb (length (c Verbs)) 0
  then Subjects else Objects.
Proof.
  intros H. unfold Legacy.classify. rewrite H.
  destruct (String.eqb_spec p "PRON") as [->|_]; [discriminate|done].
Qed.

Lemma bucket_sublist_of_input (tr : list (token * bucket)) (ws : list token) (b : bucket) :
  map fst tr = ws ->
  map fst (filter (fun p : token * bucket => p.2 = b) tr) `sublist_of` ws.
Proof. intros <-. apply map_fst_filter_sublist. Qed.

(** ** Claims *)

(** C2 (reordering): the output sequence is the concatenation of the
    buckets in the fixed order time, pronoun, subject, adjective, number,
    object, verb, adverb, preposition, other; every bucket holds exactly the
    tokens the pass assigned to it, in input order (so it is a subsequence
    of the input).  For the core converter the sequence is the words of the
    reordered tokens; for the legacy converter, whose time bucket is always
    empty, it is their vocabulary substitution. *)
Theorem reorder_fixed_bucket_order (lower upper : string -> string)
  (isupper : string -> bool) (d : dictionary) (ws : list token) :
  let c := Core.categorize_words lower ws in
  let c' := Legacy.categorize_words ws in
  Core.reorder_for_sign_language c = concat (map c spec_bucket_order) /\
  (forall b, c b = map fst (filter (fun p : token * bucket => p.2 = b)
                                   (core_trace lower ws))) /\
  map fst (core_trace lower ws) = ws /\
  (forall b, c b `sublist_of` ws) /\
  match Core.convert_to_sign_language lower upper
          {| Core.is_initialized := true; Core.basic_signs := d |} ws with
  | inr r => Core.sign_language_sequence r = map fst (concat (map c spec_bucket_order))
  | inl _ => False
  end /\
  c' TimeExpressions = [] /\
  Legacy.reorder_for_sign_language c' = concat (map c' spec_bucket_order) /\
  (forall b, c' b = map fst (filter (fun p : token * bucket => p.2 = b)
                                    (legacy_trace ws))) /\
  map fst (legacy_trace ws) = ws /\
  (forall b, c' b `sublist_of` ws) /\
  match Legacy.convert_to_sign_language lower upper isupper
          {| Legacy.is_initialized := true; Legacy.sign_dictionary := d |} ws with
  | inr r => Legacy.sign_language_sequence r =
             Legacy.convert_vocabulary lower upper d (concat (map c' spec_bucket_order))
  | inl _ => False
  end.
Proof.
  intros c c'.
  assert (Htr : map fst (core_trace lower ws) = ws) by apply trace_from_tokens.
  assert (Htr' : map fst (legacy_trace ws) = ws) by apply trace_from_tokens.
  assert (Ht : c' TimeExpressions = []) by apply legacy_no_time_bucket.
  split; [apply core_reorder_concat|].
  split; [intros b; apply core_bucket_trace|].
  split; [exact Htr|].
  split; [intros b; subst c; rewrite core_bucket_trace; by apply bucket_sublist_of_input|].
  split; [simpl; by rewrite core_reorder_concat|].
  split; [exact Ht|].
  split; [by apply legacy_reorder_concat|].
  split; [intros b; apply legacy_bucket_trace|].
  split; [exact Htr'|].
  split; [intros b; subst c'; rewrite legacy_bucket_trace; by apply bucket_sublist_of_input|].
  simpl. by rewrite legacy_reorder_concat.
Qed.

(** C3 (totality of classification): the bucket sizes add up to the input
    length, the buckets together are a permutation of the input (every
    token in exactly one bucket), the reordered sequence is a permutation of
    the input, and the output sequence has one entry per input token, for
    both converters and every input, the empty one included. *)
Theorem categorize_total (lower upper : string -> string)
  (isupper : string -> bool) (d : dictionary) (ws : list token) :
  let c := Core.categorize_words lower ws in
  let c' := Legacy.categorize_words ws in
  list_sum (map (fun b => length (c b)) all_buckets) = length ws /\
  concat (map c all_buckets) ≡ₚ ws /\
  Core.reorder_for_sign_language c ≡ₚ ws /\
  match Core.convert_to_sign_language lower upper
          {| Core.is_initialized := true; Core.basic_signs := d |} ws with
  | inr r => Core.sign_language_sequence r = map fst (Core.reorder_for_sign_language c) /\
             length (Core.sign_language_sequence r) = length ws
  | inl _ => False
  end /\
  list_sum (map (fun b => length (c' b)) all_buckets) = length ws /\
  concat (map c' all_buckets) ≡ₚ ws /\
  Legacy.reorder_for_sign_language c' ≡ₚ ws /\
  match Legacy.convert_to_sign_language lower upper isupper
          {| Legacy.is_initialized := true; Legacy.sign_dictionary := d |} ws with
  | inr r => Legacy.sign_language_sequence r =
             Legacy.convert_vocabulary lower upper d (Legacy.reorder_for_sign_language c') /\
             length (Legacy.sign_language_sequence r) = length ws
  | inl _ => False
  end.
Proof.
  intros c c'.
  assert (Hp : concat (map c all_buckets) ≡ₚ ws).
  { subst c. rewrite core_categorize_fold. apply buckets_perm_of_fold. }
  assert (Hp' : concat (map c' all_buckets) ≡ₚ ws).
  { subst c'. rewrite legacy_categorize_fold. apply buckets_perm_of_fold. }
  assert (Hr : Core.reorder_for_sign_language c ≡ₚ ws).
  { by rewrite core_reorder_concat, spec_order_perm_all. }
  assert (Hr' : Legacy.reorder_for_sign_language c' ≡ₚ ws).
  { rewrite legacy_reorder_concat by apply legacy_no_time_bucket.
    by rewrite spec_order_perm_all. }
  split; [rewrite bucket_sizes_sum; by apply Permutation_length|].
  split; [exact Hp|]. split; [exact Hr|].
  split; [simpl; split; [done|rewrite length_map; by apply Permutation_length]|].
  split; [rewrite bucket_sizes_sum; by apply Permutation_length|].
  split; [exact Hp'|]. split; [exact Hr'|].
  simpl. split; [done|].
  unfold Legacy.convert_vocabulary. rewrite length_map. by apply Permutation_length.
Qed.

(** C4 (subject / object choice): a NOUN or PROPN token goes to the
    subject bucket exactly when, at that moment of the pass, the subject
    and verb buckets are both empty, and to the object bucket otherwise
    (both converters); so of two NOUN/PROPN tokens with no verb, the first
    is a subject and the second an object. *)
Theorem noun_subject_iff_buckets_empty (lower : string -> string)
  (c : categories) (w p w2 p2 : string) :
  (p = "NOUN" \/ p = "PROPN") -> (p2 = "NOUN" \/ p2 = "PROPN") ->
  (Core.classify lower c (w, p) = Subjects <-> c Subjects = [] /\ c Verbs = []) /\
  (Core.classify lower c (w, p) = Subjects \/ Core.classify lower c (w, p) = Objects) /\
  (Legacy.classify c (w, p) = Subjects <-> c Subjects = [] /\ c Verbs = []) /\
  (Legacy.classify c (w, p) = Subjects \/ Legacy.classify c (w, p) = Objects) /\
  (Core.categorize_words lower [(w, p); (w2, p2)] Subjects = [(w, p)] /\
   Core.categorize_words lower [(w, p); (w2, p2)] Objects = [(w2, p2)]) /\
  (Legacy.categorize_words [(w, p); (w2, p2)] Subjects = [(w, p)] /\
   Legacy.categorize_words [(w, p); (w2, p2)] Objects = [(w2, p2)]).
Proof.
  intros Hp Hp2.
  assert (Hn : String.eqb p "NOUN" || String.eqb p "PROPN" = true)
    by (destruct Hp as [->| ->]; reflexivity).
  rewrite (core_classify_noun lower c w p Hn), (legacy_classify_noun c w p Hn).
  split; [|split; [|split; [|split; [|split]]]].
  - destruct (c Subjects), (c Verbs); simpl; intuition discriminate.
  - destruct (Nat.eqb (length (c Subjects)) 0 && Nat.eqb (length (c Verbs)) 0); auto.
  - destruct (c Subjects), (c Verbs); simpl; intuition discriminate.
  - destruct (Nat.eqb (length (c Subjects)) 0 && Nat.eqb (length (c Verbs)) 0); auto.
  - destruct Hp as [->| ->], Hp2 as [->| ->]; split; reflexivity.
  - destruct Hp as [->| ->], Hp2 as [->| ->]; split; reflexivity.
Qed.

Lemma noun_subject_iff_buckets_empty_witness :
  ((("PROPN" = "NOUN" \/ "PROPN" = "PROPN") /\ ("PROPN" = "NOUN" \/ "PROPN" = "PROPN")) /\
  (Core.categorize_words ascii_lower [("Hà Nội", "PROPN"); ("Việt Nam", "PROPN")] Subjects
     = [("Hà Nội", "PROPN")] /\
   Core.categorize_words ascii_lower [("Hà Nội", "PROPN"); ("Việt Nam", "PROPN")] Objects
     = [("Việt Nam", "PROPN")])).
Proof.
  split; [split; right; reflexivity|].
  destruct (noun_subject_iff_buckets_empty ascii_lower empty_categories
              "Hà Nội" "PROPN" "Việt Nam" "PROPN")
    as (_ & _ & _ & _ & H & _); [right; reflexivity | right; reflexivity |].
  exact H.
Defined.

(** C5, refuted: in [[a/NOUN; b/NOUN; ăn/VERB; sáng/X; nhé/X]] the two NOUN
    tokens both stand before the first verb yet land in different buckets
    (subject, object), and the two X tokens both stand after it yet land in
    different buckets (time, other): the tag and the side of the first verb
    do not determine the bucket. *)
Lemma bucket_not_function_of_tag_and_verb_side :
  core_trace ascii_lower
    [("a", "NOUN"); ("b", "NOUN"); ("ăn", "VERB"); ("sáng", "X"); ("nhé", "X")] =
  [(("a", "NOUN"), Subjects); (("b", "NOUN"), Objects); (("ăn", "VERB"), Verbs);
   (("sáng", "X"), TimeExpressions); (("nhé", "X"), Others)].
Proof. vm_compute. reflexivity. Qed.

Lemma trace_from_length (classify : categories -> token -> bucket)
  (ws : list token) (c : categories) :
  length (trace_from classify c ws) = length ws.
Proof. revert c. induction ws; intros c; simpl; [done|]. by rewrite IHws. Qed.

Lemma core_classify_after_prefix (lower : string -> string) (prefix : list token)
  (t : token) :
  Core.classify lower (Core.categorize_words lower prefix) t =
  amended_bucket_rule lower (seen_noun_or_verb prefix) t.
Proof.
  pose proof (core_categorize_flags lower prefix) as Hf.
  destruct t as [w p]. unfold Core.classify, amended_bucket_rule.
  destruct (String.eqb p "PRON"); [done|].
  destruct (String.eqb p "NOUN" || String.eqb p "PROPN"); [|done].
  destruct (seen_noun_or_verb prefix),
    (Core.categorize_words lower prefix Subjects),
    (Core.categorize_words lower prefix Verbs); simpl; naive_solver.
Qed.

(** C5, as the code has it: the bucket of the token at position [i] is a
    function of its tag, its lowercased word and whether some earlier token
    is tagged NOUN, PROPN or VERB ([amended_bucket_rule]): NOUN/PROPN go to
    subject exactly when no earlier token has one of these tags and to
    object otherwise; PRON, VERB, ADJ, ADV, NUM, ADP go to their fixed
    buckets; any other tag goes to time when the lowercased word is a time
    word and to other otherwise. *)
Theorem bucket_rule_tag_word_earlier_roles (lower : string -> string)
  (ws : list token) (i : nat) (t : token) :
  ws !! i = Some t ->
  core_trace lower ws !! i =
  Some (t, amended_bucket_rule lower (seen_noun_or_verb (take i ws)) t).
Proof.
  intros Hi.
  rewrite <- (take_drop_middle ws i t Hi). unfold core_trace.
  rewrite trace_from_app, lookup_app_r; rewrite trace_from_length.
  2: { rewrite length_take. apply lookup_lt_Some in Hi. lia. }
  rewrite length_take_le by (apply lookup_lt_Some in Hi; lia).
  rewrite Nat.sub_diag. simpl.
  rewrite take_app_length' by (rewrite length_take; apply lookup_lt_Some in Hi; lia).
  rewrite <- core_categorize_fold. by rewrite core_classify_after_prefix.
Qed.

Lemma bucket_rule_tag_word_earlier_roles_witness :
  [("a", "NOUN"); ("b", "NOUN"); ("ăn", "VERB")] !! 1 = Some ("b", "NOUN") /\
  core_trace ascii_lower [("a", "NOUN"); ("b", "NOUN"); ("ăn", "VERB")] !! 1 =
  Some (("b", "NOUN"), amended_bucket_rule ascii_lower
          (seen_noun_or_verb (take 1 [("a", "NOUN"); ("b", "NOUN"); ("ăn", "VERB")]))
          ("b", "NOUN")).
Proof.
  split; [reflexivity|].
  apply bucket_rule_tag_word_earlier_roles. reflexivity.
Defined.

(** ** Dictionary loading *)

(** C6, refuted: a dictionary file that exists and is read without error
    but holds no entry (only a comment and a blank line) loads as the empty
    mapping; the seed mapping is not used. *)
Lemma entryless_file_loads_empty :
  Core.load_dictionary_from_file ascii_lower ascii_upper ascii_strip
    (FileRead ["# sign dictionary"; ""] false) = ∅.
Proof. vm_compute. reflexivity. Qed.

(** C6, as the code has it: the core loader returns the built-in seed
    mapping (19 entries: pronouns, verbs, numbers, particles) when the file
    is missing or reading it raises; a file read without error gives exactly
    the entries parsed from its lines, hence the empty mapping for a file
    without entries.  The legacy loader has no seed mapping: a missing file
    gives the empty mapping. *)
Theorem load_falls_back_on_missing_or_error (lower upper strip : string -> string)
  (lines : list string) :
  Core.load_dictionary_from_file lower upper strip FileMissing = Core.get_fallback_dictionary /\
  Core.load_dictionary_from_file lower upper strip (FileRead lines true) =
    Core.get_fallback_dictionary /\
  Core.load_dictionary_from_file lower upper strip (FileRead lines false) =
    fold_left (Core.load_line lower upper strip) lines ∅ /\
  Core.load_dictionary_from_file lower upper strip (FileRead [] false) = ∅ /\
  size Core.get_fallback_dictionary = 19 /\
  Core.get_fallback_dictionary !! "tôi" = Some "TÔI" /\
  Core.get_fallback_dictionary !! "ăn" = Some "ĂN" /\
  Core.get_fallback_dictionary !! "một" = Some "1" /\
  Core.get_fallback_dictionary !! "không" = Some "KHÔNG" /\
  Legacy.load_dictionary_from_file strip FileMissing = ∅.
Proof.
  split; [reflexivity|]. split; [reflexivity|]. split; [reflexivity|].
  split; [reflexivity|]. split; [vm_compute; reflexivity|].
  split; [vm_compute; reflexivity|]. split; [vm_compute; reflexivity|].
  split; [vm_compute; reflexivity|]. split; [vm_compute; reflexivity|].
  reflexivity.
Qed.

Lemma replace_char_no_needle (s : string) :
  contains_char " " (replace_char " " "_" s) = false.
Proof.
  induction s as [|a s IH]; simpl; [done|].
  destruct (Ascii.eqb a " ") eqn:E; simpl; rewrite IH; [done|]. by rewrite E.
Qed.

Lemma replace_char_id (s : string) :
  contains_char " " s = false -> replace_char " " "_" s = s.
Proof.
  induction s as [|a s IH]; simpl; [done|].
  intros H. apply orb_false_iff in H as [Ha Hs]. rewrite Ha, IH by done. done.
Qed.

Lemma normalize_spaced_unreachable (lower : string -> string) (k w : string) :
  contains_char " " k = true -> normalize lower w <> k.
Proof.
  intros Hk Heq. unfold normalize in Heq.
  pose proof (replace_char_no_needle (lower w)) as H. rewrite Heq in H. congruence.
Qed.

(** C7, refuted: the line [Ha Noi = HA_NOI] loads under the key
    [ha noi], which keeps its space, while every lookup key has its spaces
    replaced by underscores: the entry is unreachable. *)
Lemma spaced_key_unreachable :
  Core.load_dictionary_from_file ascii_lower ascii_upper ascii_strip
    (FileRead ["Ha Noi = HA_NOI"] false) !! "ha noi" = Some "HA_NOI" /\
  forall w, normalize ascii_lower w <> "ha noi".
Proof.
  split; [vm_compute; reflexivity|].
  intros w. apply normalize_spaced_unreachable. reflexivity.
Qed.

Lemma core_load_line_keys (lower upper strip : string -> string)
  (P : string -> string -> Prop) :
  (forall s s', P (lower (strip s)) (upper (strip s'))) ->
  forall (d : dictionary) l,
  (forall k v, d !! k = Some v -> P k v) ->
  forall k v, Core.load_line lower upper strip d l !! k = Some v -> P k v.
Proof.
  intros HP d l Hd k v. unfold Core.load_line.
  destruct (split_once "=" (strip l)) as [a b].
  repeat case_match; try apply Hd.
  rewrite lookup_insert. case_decide; [|apply Hd].
  intros Hv. injection Hv as <-. subst k. apply HP.
Qed.

(** C7, as the code has it: the core loader strips and lowercases each key
    (and uppercases each sign) at load time, but does not replace spaces by
    underscores; a loaded key containing a space is never reached by
    lookup, and a key without spaces that [lower] leaves unchanged is
    reached by looking up that very word. *)
Theorem loaded_keys_lowercased_not_joined (lower upper strip : string -> string)
  (lines : list string) (k v : string) :
  fold_left (Core.load_line lower upper strip) lines ∅ !! k = Some v ->
  (exists s, k = lower (strip s)) /\ (exists s, v = upper (strip s)) /\
  (contains_char " " k = true -> forall w, normalize lower w <> k) /\
  (contains_char " " k = false -> lower k = k -> normalize lower k = k).
Proof.
  intros Hk. split; [|split; [|split]].
  - assert (Hgen : forall (d : dictionary),
              (forall k v, d !! k = Some v -> exists s, k = lower (strip s)) ->
              forall k v, fold_left (Core.load_line lower upper strip) lines d !! k = Some v ->
              exists s, k = lower (strip s)).
    { clear Hk. induction lines as [|l ls IH]; intros d Hd; simpl; [done|].
      apply IH. apply (core_load_line_keys lower upper strip
                         (fun k _ => exists s, k = lower (strip s))); [eauto|done]. }
    eapply (Hgen ∅); [|exact Hk]. intros ?? H. by rewrite lookup_empty in H.
  - assert (Hgen : forall (d : dictionary),
              (forall k v, d !! k = Some v -> exists s, v = upper (strip s)) ->
              forall k v, fold_left (Core.load_line lower upper strip) lines d !! k = Some v ->
              exists s, v = upper (strip s)).
    { clear Hk. induction lines as [|l ls IH]; intros d Hd; simpl; [done|].
      apply IH. apply (core_load_line_keys lower upper strip
                         (fun _ v => exists s, v = upper (strip s))); [eauto|done]. }
    eapply (Hgen ∅); [|exact Hk]. intros ?? H. by rewrite lookup_empty in H.
  - intros Hs w. by apply normalize_spaced_unreachable.
  - intros Hs Hl. unfold normalize. rewrite Hl. by apply replace_char_id.
Qed.

Lemma loaded_keys_lowercased_not_joined_witness :
  fold_left (Core.load_line ascii_lower ascii_upper ascii_strip) ["Ha Noi = HA_NOI"] ∅
    !! "ha noi" = Some "HA_NOI" /\
  (contains_char " " "ha noi" = true -> forall w, normalize ascii_lower w <> "ha noi").
Proof.
  split; [vm_compute; reflexivity|].
  apply (loaded_keys_lowercased_not_joined ascii_lower ascii_upper ascii_strip
           ["Ha Noi = HA_NOI"] "ha noi" "HA_NOI").
  vm_compute. reflexivity.
Defined.

(** ** Conversion results and failures *)

(** C9: the core conversion fails (with the [error] dict) exactly when the
    converter is uninitialised, a freshly constructed converter is always
    initialised, and on an initialised converter the empty input gives an
    empty sequence, empty buckets, no word details and zero counts. *)
Theorem convert_fails_iff_uninitialized (lower upper strip : string -> string)
  (cv : Core.converter) (ws : list token) (d : dictionary) (src : dict_source) :
  ((exists e, Core.convert_to_sign_language lower upper cv ws = inl e) <->
   Core.is_initialized cv = false) /\
  Core.is_initialized (Core.init lower upper strip src) = true /\
  match Core.convert_to_sign_language lower upper
          {| Core.is_initialized := true; Core.basic_signs := d |} [] with
  | inr r =>
      Core.sign_language_sequence r = [] /\
      (forall b, Core.pos_analysis r b = []) /\
      Core.word_details r = [] /\
      Core.original_sentence r = "" /\
      Core.word_count (Core.structure_analysis r) = 0 /\
      Core.reordered_count (Core.structure_analysis r) = 0 /\
      Core.sc_subjects (Core.structure_analysis r) = 0 /\
      Core.sc_verbs (Core.structure_analysis r) = 0 /\
      Core.sc_objects (Core.structure_analysis r) = 0 /\
      Core.sc_adjectives (Core.structure_analysis r) = 0 /\
      Core.sc_time_expressions (Core.structure_analysis r) = 0 /\
      Core.sc_others (Core.structure_analysis r) = 0
  | inl _ => False
  end.
Proof.
  split; [|split; [reflexivity|]].
  - unfold Core.convert_to_sign_language.
    destruct (Core.is_initialized cv); simpl; split.
    + intros [e He]. discriminate.
    + discriminate.
    + done.
    + intros _. eexists. reflexivity.
  - simpl. repeat split.
Qed.

(** ** Vocabulary substitution *)

(** The legacy substitution [_convert_vocabulary]: entry [i] of its output
    is the stored sign of the normalised word of token [i] when the
    dictionary has it, and the uppercased word otherwise. *)
Lemma legacy_convert_vocabulary_nth (lower upper : string -> string)
  (d : dictionary) (ws : list token) (i : nat) (w p : string) :
  ws !! i = Some (w, p) ->
  Legacy.convert_vocabulary lower upper d ws !! i =
  Some (match d !! normalize lower w with Some sign => sign | None => upper w end).
Proof.
  unfold Legacy.convert_vocabulary. revert i.
  induction ws as [|[w' p'] ws IH]; intros [|i] Hi; simpl in *; try discriminate.
  - by injection Hi as -> ->.
  - by apply IH.
Qed.

(** The per-word report of the core converter: on a hit the stored sign
    with a true flag, on a miss [WORD[TAG]] with a false flag. *)
Lemma core_word_detail_formats (lower upper : string -> string)
  (d : dictionary) (index : nat) (w p : string) :
  let wd := Core.word_detail_of lower upper d index (w, p) in
  match d !! normalize lower w with
  | Some sign => Core.wd_dictionary_action wd = sign /\
                 Core.wd_has_dictionary_definition wd = true /\
                 Core.wd_in_dictionary wd = true
  | None => Core.wd_dictionary_action wd =
              String.append (upper w) (String.append "[" (String.append p "]")) /\
            Core.wd_has_dictionary_definition wd = false /\
            Core.wd_in_dictionary wd = false
  end.
Proof.
  simpl. unfold Core.word_detail_of. destruct (d !! normalize lower w); auto.
Qed.

(** C1 (code defect): the core converter, whose dictionary holds
    [tôi -> TÔI] (the seed mapping, loaded when the file is missing),
    returns the surface word [Tôi] as the sequence for the input
    [[Tôi/PRON]]: its sequence is [[word for word, _ in reordered]] and is
    never looked up in the dictionary, whereas the legacy substitution
    [_convert_vocabulary] on the same dictionary yields the stored [TÔI]. *)
Theorem core_sequence_skips_dictionary :
  let cv := Core.init ascii_lower ascii_upper ascii_strip FileMissing in
  Core.basic_signs cv !! normalize ascii_lower "Tôi" = Some "TÔI" /\
  match Core.convert_to_sign_language ascii_lower ascii_upper cv [("Tôi", "PRON")] with
  | inr r => Core.sign_language_sequence r = ["Tôi"]
  | inl _ => False
  end /\
  Legacy.convert_vocabulary ascii_lower ascii_upper (Core.basic_signs cv)
    [("Tôi", "PRON")] = ["TÔI"].
Proof. vm_compute. repeat split. Qed.

(** C8 (code defect, the same as for C1): on the miss [com/NOUN] the core
    converter's word report carries [COM[NOUN]] with a false flag, as
    claimed, but its sequence carries the surface word [com], not the
    uppercased [COM]. *)
Theorem core_sequence_miss_not_uppercased :
  let cv := Core.init ascii_lower ascii_upper ascii_strip FileMissing in
  Core.basic_signs cv !! normalize ascii_lower "com" = None /\
  match Core.convert_to_sign_language ascii_lower ascii_upper cv [("com", "NOUN")] with
  | inr r => Core.sign_language_sequence r = ["com"] /\
             map Core.wd_dictionary_action (Core.word_details r) = ["COM[NOUN]"] /\
             map Core.wd_in_dictionary (Core.word_details r) = [false]
  | inl _ => False
  end /\
  Legacy.convert_vocabulary ascii_lower ascii_upper (Core.basic_signs cv)
    [("com", "NOUN")] = ["COM"].
Proof. vm_compute. repeat split. Qed.

(** ** Reload against concurrent lookups *)
Module ReloadFacts.
Import Concurrent.
Section ReloadFacts.
Variable lower upper strip : string -> string.
Variable word : string.
Variable pre : dictionary.
Variable src : dict_source.

(** What the store may hold at each point of the reloading thread. *)
Definition reload_inv (s : state) : Prop :=
  match reloader s with
  | RLoading acc rest =>
      store s = pre /\
      fold_left (Legacy.load_line strip) rest acc = Legacy.load_dictionary_from_file strip src
  | RPublish fresh =>
      store s = pre /\ fresh = Legacy.load_dictionary_from_file strip src
  | RDone => store s = Legacy.load_dictionary_from_file strip src
  end.

Lemma reload_inv_initial : reload_inv (initial pre src).
Proof. unfold reload_inv, initial, reload_start. destruct src; simpl; auto. Qed.

Lemma reload_inv_step (s s' : state) :
  step lower upper strip word s s' -> reload_inv s -> reload_inv s'.
Proof. intros Hs; destruct Hs; unfold reload_inv; simpl; naive_solver. Qed.

(** Every single read of [self.sign_dictionary] during a reload sees the
    whole pre-reload mapping or the whole reloaded one. *)
Lemma reload_store_whole (s : state) :
  rtc (step lower upper strip word) (initial pre src) s ->
  store s = pre \/ store s = Legacy.load_dictionary_from_file strip src.
Proof.
  intros Hr.
  assert (Hinv : reload_inv s).
  { remember (initial pre src) as s0 eqn:Hs0.
    assert (H0 : reload_inv s0) by (subst; apply reload_inv_initial).
    clear Hs0. induction Hr as [|x y z Hxy _ IH]; [done|].
    apply IH. by eapply reload_inv_step. }
  unfold reload_inv in Hinv. destruct (reloader s); naive_solver.
Qed.

End ReloadFacts.

Lemma step_check_to (lower upper strip : string -> string) (word : string)
  (st : dictionary) (rl : reload_pc) (hit : bool) :
  hit = bool_decide (is_Some (st !! normalize lower word)) ->
  step lower upper strip word {| store := st; reloader := rl; reader := LStart |}
                              {| store := st; reloader := rl; reader := LChecked hit |}.
Proof. intros ->. apply step_check. Qed.

End ReloadFacts.

(** ** Lookups under the server's schedule *)
Module SerialFacts.
Import Concurrent.
Section SerialFacts.
Variable lower upper strip : string -> string.
Variable word : string.
Variable pre : dictionary.
Variable src : dict_source.

(** The reload invariant, and what the lookup has seen at each point. *)
Definition serial_inv (s : state) : Prop :=
  ReloadFacts.reload_inv strip pre src s /\
  match reader s with
  | LStart => True
  | LChecked hit => hit = bool_decide (is_Some (store s !! normalize lower word))
  | LDone o =>
      o = lookup_alone lower upper pre word \/
      o = lookup_alone lower upper (Legacy.load_dictionary_from_file strip src) word
  end.

Lemma serial_inv_initial : serial_inv (initial pre src).
Proof. split; [apply ReloadFacts.reload_inv_initial | done]. Qed.

Lemma reload_inv_store (s : state) :
  ReloadFacts.reload_inv strip pre src s ->
  store s = pre \/ store s = Legacy.load_dictionary_from_file strip src.
Proof. unfold ReloadFacts.reload_inv. destruct (reloader s); naive_solver. Qed.

Lemma lookup_fetch_hit (d : dictionary) :
  true = bool_decide (is_Some (d !! normalize lower word)) ->
  match d !! normalize lower word with
  | Some sign => Sign sign
  | None => KeyError
  end = lookup_alone lower upper d word.
Proof.
  intros H. symmetry in H. apply bool_decide_eq_true in H.
  unfold lookup_alone. destruct H as [v ->]. done.
Qed.

Lemma lookup_fetch_miss (d : dictionary) :
  false = bool_decide (is_Some (d !! normalize lower word)) ->
  Sign (upper word) = lookup_alone lower upper d word.
Proof.
  intros H. symmetry in H. apply bool_decide_eq_false in H.
  unfold lookup_alone. destruct (d !! normalize lower word); [|done].
  exfalso. by apply H.
Qed.

Lemma serial_inv_step (s s' : state) :
  serial_step lower upper strip word s s' -> serial_inv s -> serial_inv s'.
Proof.
  intros [Hs Hsw] [Hr Hrd].
  split; [by eapply ReloadFacts.reload_inv_step|].
  pose proof (reload_inv_store s Hr) as Hst.
  destruct Hs; simpl in *; try done.
  - destruct rd as [|hit|o]; try done. by specialize (Hsw hit eq_refl).
  - rewrite (lookup_fetch_hit st Hrd). destruct Hst as [-> | ->]; auto.
  - rewrite (lookup_fetch_miss st Hrd). destruct Hst as [-> | ->]; auto.
Qed.

Lemma serial_inv_reachable (s : state) :
  rtc (serial_step lower upper strip word) (initial pre src) s -> serial_inv s.
Proof.
  intros Hr. remember (initial pre src) as s0 eqn:Hs0.
  assert (H0 : serial_inv s0) by (subst; apply serial_inv_initial).
  clear Hs0. induction Hr as [|x y z Hxy _ IH]; [done|].
  apply IH. by eapply serial_inv_step.
Qed.

Lemma reload_inv_reachable (s : state) :
  rtc (step lower upper strip word) (initial pre src) s ->
  ReloadFacts.reload_inv strip pre src s.
Proof.
  intros Hr. remember (initial pre src) as s0 eqn:Hs0.
  assert (H0 : ReloadFacts.reload_inv strip pre src s0)
    by (subst; apply ReloadFacts.reload_inv_initial).
  clear Hs0. induction Hr as [|x y z Hxy _ IH]; [done|].
  apply IH. by eapply ReloadFacts.reload_inv_step.
Qed.

End SerialFacts.
End SerialFacts.

(** C10: the reload builds the new mapping off to the side and publishes it
    in one step.  In every interleaving of the reload with a lookup, the
    attribute holds the whole pre-reload mapping until the publishing
    assignment and the whole reloaded mapping from then on, so each read of
    it sees one of the two mappings in its entirety.  Under the server's
    schedule, where nothing of the reload runs between the lookup's two
    reads, the lookup's outcome is that of the lookup run alone on the
    pre-reload mapping or on the reloaded one. *)
Theorem reload_lookup_sees_whole_mapping (lower upper strip : string -> string)
  (word : string) (pre : dictionary) (src : dict_source) :
  let post := Legacy.load_dictionary_from_file strip src in
  (forall s, rtc (Concurrent.step lower upper strip word) (Concurrent.initial pre src) s ->
     (Concurrent.reloader s = Concurrent.RDone /\ Concurrent.store s = post) \/
     (Concurrent.reloader s <> Concurrent.RDone /\ Concurrent.store s = pre)) /\
  (forall s o,
     rtc (Concurrent.serial_step lower upper strip word) (Concurrent.initial pre src) s ->
     Concurrent.reader s = Concurrent.LDone o ->
     o = Concurrent.lookup_alone lower upper pre word \/
     o = Concurrent.lookup_alone lower upper post word).
Proof.
  intros post. split.
  - intros s Hr.
    pose proof (SerialFacts.reload_inv_reachable lower upper strip word pre src s Hr) as Hi.
    unfold ReloadFacts.reload_inv in Hi.
    destruct (Concurrent.reloader s); [right|right|left]; naive_solver.
  - intros s o Hr Ho.
    destruct (SerialFacts.serial_inv_reachable lower upper strip word pre src s Hr)
      as [_ Hrd].
    rewrite Ho in Hrd. exact Hrd.
Qed.

(** A server schedule: the reload runs to its end, then the lookup of [a]
    runs and finds the fallback [A] of the reloaded mapping. *)
Lemma reload_lookup_sees_whole_mapping_witness :
  let pre : dictionary := {["a" := "SIGN-A"]} in
  let src := FileRead ["b = SIGN-B"] false in
  let s := {| Concurrent.store := Legacy.load_dictionary_from_file ascii_strip src;
              Concurrent.reloader := Concurrent.RDone;
              Concurrent.reader := Concurrent.LDone (Concurrent.Sign "A") |} in
  rtc (Concurrent.serial_step ascii_lower ascii_upper ascii_strip "a")
      (Concurrent.initial pre src) s /\
  (Concurrent.Sign "A" = Concurrent.lookup_alone ascii_lower ascii_upper pre "a" \/
   Concurrent.Sign "A" = Concurrent.lookup_alone ascii_lower ascii_upper
                           (Legacy.load_dictionary_from_file ascii_strip src) "a").
Proof.
  intros pre src s.
  assert (Hr : rtc (Concurrent.serial_step ascii_lower ascii_upper ascii_strip "a")
                   (Concurrent.initial pre src) s).
  { unfold Concurrent.initial, Concurrent.reload_start, src, s.
    eapply rtc_l; [constructor; [apply Concurrent.step_load_line | discriminate]|].
    eapply rtc_l; [constructor; [apply Concurrent.step_load_end | discriminate]|].
    eapply rtc_l; [constructor; [apply Concurrent.step_publish | discriminate]|].
    eapply rtc_l; [constructor; [apply (ReloadFacts.step_check_to _ _ _ _ _ _ false);
                                 vm_compute; reflexivity | intros hit Hc; reflexivity]|].
    eapply rtc_l; [constructor; [apply Concurrent.step_fetch_miss |
                                 intros hit Hc; reflexivity]|].
    vm_compute. apply rtc_refl. }
  split; [exact Hr|].
  exact (proj2 (reload_lookup_sees_whole_mapping ascii_lower ascii_upper ascii_strip "a"
                  pre src) s (Concurrent.Sign "A") Hr eq_refl).
Defined.

(** * Further properties of the code *)


(** Closes a closed decidable goal by evaluating its decision procedure. *)
Ltac decide_closed := match goal with |- ?P => apply (bool_decide_unpack P); vm_compute; exact I end.

Lemma convert_to_ud_tag_in_table (m : list (string * string)) (t : string) :
  Tagger.convert_to_ud_tag m t ∈ "X" :: m.*2.
Proof.
  unfold Tagger.convert_to_ud_tag.
  destruct ((list_to_map m : gmap string string) !! t) as [s|] eqn:E; simpl.
  - apply elem_of_list_to_map_2 in E. apply elem_of_cons. right.
    apply list_elem_of_fmap. by exists (t, s).
  - apply elem_of_cons. by left.
Qed.

Lemma convert_to_ud_tag_unknown (m : list (string * string)) (t : string) :
  t ∉ m.*1 -> Tagger.convert_to_ud_tag m t = "X".
Proof.
  intros H. unfold Tagger.convert_to_ud_tag.
  by rewrite (not_elem_of_list_to_map_1 (M:=gmap string) m t H).
Qed.

(** [_convert_to_ud_tag] only ever returns a tag of its table or the
    default ["X"]: the core tagger's tags lie in the sixteen UD tags listed,
    the legacy tagger's in the same list without ["AUX"]; a tag that is not a
    key of the table becomes ["X"] in both. *)
Theorem ud_tag_conversion_closed (t : string) :
  Tagger.convert_to_ud_tag Tagger.core_tag_mapping t ∈
    ["NOUN"; "PROPN"; "VERB"; "AUX"; "ADJ"; "ADV"; "PRON"; "ADP"; "CCONJ";
     "SCONJ"; "DET"; "NUM"; "PUNCT"; "PART"; "INTJ"; "X"] /\
  Tagger.convert_to_ud_tag Tagger.legacy_tag_mapping t ∈
    ["NOUN"; "PROPN"; "VERB"; "ADJ"; "ADV"; "PRON"; "ADP"; "CCONJ";
     "SCONJ"; "DET"; "NUM"; "PUNCT"; "PART"; "INTJ"; "X"] /\
  (t ∉ Tagger.core_tag_mapping.*1 ->
   Tagger.convert_to_ud_tag Tagger.core_tag_mapping t = "X" /\
   Tagger.convert_to_ud_tag Tagger.legacy_tag_mapping t = "X").
Proof.
  split; [|split].
  - pose proof (convert_to_ud_tag_in_table Tagger.core_tag_mapping t) as H.
    revert H. generalize (Tagger.convert_to_ud_tag Tagger.core_tag_mapping t).
    intros x H. simpl in H. rewrite !elem_of_cons in H.
    destruct_or! H; try by apply elem_of_nil in H. all: subst; decide_closed.
  - pose proof (convert_to_ud_tag_in_table Tagger.legacy_tag_mapping t) as H.
    revert H. generalize (Tagger.convert_to_ud_tag Tagger.legacy_tag_mapping t).
    intros x H. simpl in H. rewrite !elem_of_cons in H.
    destruct_or! H; try by apply elem_of_nil in H. all: subst; decide_closed.
  - intros H. split; apply convert_to_ud_tag_unknown; [done|].
    by replace (Tagger.legacy_tag_mapping.*1) with (Tagger.core_tag_mapping.*1)
      by reflexivity.
Qed.

(** [tag_sentence] (core tagger) returns the words of [pos_tag] in order,
    or no word at all when the tagger is not initialised or [pos_tag]
    raises, and every tag it returns is one of the UD tags of the table. *)
Theorem tag_sentence_words_and_tags (pos_tag : string -> option (list token))
  (is_initialized : bool) (sentence : string) :
  let r := Tagger.tag_sentence pos_tag Tagger.core_tag_mapping is_initialized sentence in
  map fst r = (if is_initialized
               then match pos_tag sentence with Some res => map fst res | None => [] end
               else []) /\
  Forall (fun p : token => p.2 ∈
    ["NOUN"; "PROPN"; "VERB"; "AUX"; "ADJ"; "ADV"; "PRON"; "ADP"; "CCONJ";
     "SCONJ"; "DET"; "NUM"; "PUNCT"; "PART"; "INTJ"; "X"]) r.
Proof.
  unfold Tagger.tag_sentence. destruct is_initialized; simpl; [|auto].
  destruct (pos_tag sentence) as [res|]; [|auto]. split.
  - rewrite map_map. apply map_ext. by intros [w t].
  - apply Forall_forall. intros [w t] Hin. apply list_elem_of_In, in_map_iff in Hin.
    destruct Hin as [[w' t'] [Heq _]]. injection Heq as <- <-.
    apply (ud_tag_conversion_closed t').
Qed.

Lemma core_classify_verbs_iff (lower : string -> string) (c : categories) (w p : string) :
  Core.classify lower c (w, p) = Verbs <-> p = "VERB".
Proof.
  split; [|intros ->; reflexivity].
  unfold Core.classify. intros H. apply String.eqb_eq. repeat case_match; congruence.
Qed.

Lemma legacy_classify_verbs_iff (c : categories) (w p : string) :
  Legacy.classify c (w, p) = Verbs <-> p = "VERB".
Proof.
  split; [|intros ->; reflexivity].
  unfold Legacy.classify. intros H. apply String.eqb_eq. repeat case_match; congruence.
Qed.

Lemma convert_to_ud_tag_eq_iff (m : list (string * string)) (r v : string) :
  NoDup m.*1 -> v <> "X" ->
  (Tagger.convert_to_ud_tag m r = v <-> (r, v) ∈ m).
Proof.
  intros Hnd Hx. unfold Tagger.convert_to_ud_tag.
  rewrite (elem_of_list_to_map (M:=gmap string) m r v Hnd).
  destruct ((list_to_map m : gmap string string) !! r); simpl; naive_solver.
Qed.

(** Tagger and converter composed: a word whose UndertheSea tag is [r]
    reaches the verb bucket of the core converter, through the core tagger,
    exactly when [r] is ["V"] or ["Vb"]; auxiliaries (["Vu"], mapped to
    ["AUX"]) never do.  Through the legacy tagger, ["Vu"] words are verbs
    too. *)
Theorem verb_bucket_raw_tags (lower : string -> string) (c : categories) (w r : string) :
  (Core.classify lower c (w, Tagger.convert_to_ud_tag Tagger.core_tag_mapping r) = Verbs <->
   r = "V" \/ r = "Vb") /\
  (Legacy.classify c (w, Tagger.convert_to_ud_tag Tagger.legacy_tag_mapping r) = Verbs <->
   r = "V" \/ r = "Vb" \/ r = "Vu").
Proof.
  rewrite core_classify_verbs_iff, legacy_classify_verbs_iff.
  rewrite !convert_to_ud_tag_eq_iff by (done || decide_closed).
  split; split.
  - intros H. apply list_elem_of_In in H. simpl in H. destruct_or! H; simplify_eq; auto.
  - intros [-> | ->]; decide_closed.
  - intros H. apply list_elem_of_In in H. simpl in H. destruct_or! H; simplify_eq; auto.
  - intros [-> | [-> | ->]]; decide_closed.
Qed.

(** ** Tag counting of [analyze_text] *)
Definition tag_sum (m : gmap string nat) : nat := map_fold (fun _ n acc => n + acc) 0 m.

Lemma count_tags_fold (ws : list token) (m : gmap string nat) :
  fold_left (fun tag_counts '(_, tag) =>
               <[tag := default 0 (tag_counts !! tag) + 1]> tag_counts) ws m =
  fold_left (fun tag_counts (p : token) =>
               <[p.2 := default 0 (tag_counts !! p.2) + 1]> tag_counts) ws m.
Proof.
  revert m. induction ws as [|[w t] ws IH]; intros m; simpl; [done|]. apply IH.
Qed.

Lemma count_tags_lookup (ws : list token) (m : gmap string nat) (tag : string) :
  default 0 (fold_left (fun tag_counts (p : token) =>
               <[p.2 := default 0 (tag_counts !! p.2) + 1]> tag_counts) ws m !! tag) =
  default 0 (m !! tag) + length (filter (fun p : token => p.2 = tag) ws).
Proof.
  revert m. induction ws as [|[w t] ws IH]; intros m; simpl; [lia|].
  rewrite IH, filter_cons. simpl.
  destruct (decide (t = tag)) as [->|Hne].
  - rewrite lookup_insert_eq. simpl. lia.
  - rewrite lookup_insert_ne by done. done.
Qed.

Lemma count_tags_dom (ws : list token) (m : gmap string nat) :
  dom (fold_left (fun tag_counts (p : token) =>
               <[p.2 := default 0 (tag_counts !! p.2) + 1]> tag_counts) ws m) =
  dom m ∪ list_to_set (map snd ws).
Proof.
  revert m. induction ws as [|[w t] ws IH]; intros m; simpl.
  - set_solver.
  - rewrite IH, dom_insert_L. set_solver.
Qed.

Lemma tag_sum_bump (m : gmap string nat) (t : string) :
  tag_sum (<[t := default 0 (m !! t) + 1]> m) = tag_sum m + 1.
Proof.
  unfold tag_sum. destruct (m !! t) as [n|] eqn:E; simpl.
  - rewrite (map_fold_delete_L _ _ t n m) by (intros; lia || done).
    rewrite <- insert_delete_eq.
    rewrite map_fold_insert_L by (intros; lia || apply lookup_delete_eq).
    lia.
  - rewrite map_fold_insert_L by (intros; lia || done). lia.
Qed.

Lemma count_tags_sum (ws : list token) (m : gmap string nat) :
  tag_sum (fold_left (fun tag_counts (p : token) =>
               <[p.2 := default 0 (tag_counts !! p.2) + 1]> tag_counts) ws m) =
  tag_sum m + length ws.
Proof.
  revert m. induction ws as [|[w t] ws IH]; intros m; simpl; [lia|].
  rewrite IH, tag_sum_bump. lia.
Qed.

(** [POST /api/analyze]: an empty [text] is refused with 422 by the
    request validation; a non-empty text that is blank after stripping is
    refused with 400 before the tagger is looked at; a non-blank text with
    an uninitialised tagger gets 500.  Otherwise the results are the tagging of the stripped text,
    [total_words] is their number, [tag_distribution] maps each tag that
    occurs to its number of occurrences and nothing else, [unique_tags] is
    the number of distinct tags and the counts add up to [total_words]. *)
Theorem analyze_statistics_consistent (strip : string -> string)
  (pos_tag : string -> option (list token)) (tagger_initialized : bool) (text : string) :
  match Api.analyze_text strip pos_tag tagger_initialized text with
  | inl e =>
      (text = "" /\ e = Api.request_validation_error /\ Api.status_code e = 422) \/
      (text <> "" /\ strip text = "" /\
       e = Api.http_exception (400, "Please provide text input!")) \/
      (strip text <> "" /\ tagger_initialized = false /\
       e = Api.http_exception (500, "Error loading POS Tagger!"))
  | inr (results, st) =>
      text <> "" /\ strip text <> "" /\ tagger_initialized = true /\
      results = Tagger.tag_sentence pos_tag Tagger.core_tag_mapping true (strip text) /\
      Api.total_words st = length results /\
      (forall tag, default 0 (Api.tag_distribution st !! tag) =
                   length (filter (fun p : token => p.2 = tag) results)) /\
      dom (Api.tag_distribution st) = list_to_set (map snd results) /\
      Api.unique_tags st = size (list_to_set (map snd results) : gset string) /\
      map_fold (fun _ n acc => n + acc) 0 (Api.tag_distribution st) = Api.total_words st
  end.
Proof.
  unfold Api.analyze_text, Api.text_request_valid, Api.validate_text_input,
    Api.check_component_initialization.
  destruct text as [|t0 ts]; simpl; [by left|].
  destruct (strip (String t0 ts)) as [|a s] eqn:Hs; simpl; [by right; left|].
  destruct tagger_initialized; simpl; [|right; right; split; [done|auto]].
  set (results := Tagger.tag_sentence pos_tag Tagger.core_tag_mapping true (String a s)).
  unfold Api.count_tags. rewrite count_tags_fold.
  split; [done|]. split; [done|]. split; [done|]. split; [done|]. split; [done|].
  split; [intros tag; by rewrite count_tags_lookup|].
  assert (Hdom : dom (fold_left (fun tag_counts (p : token) =>
               <[p.2 := default 0 (tag_counts !! p.2) + 1]> tag_counts) results (∅ : gmap string nat))
                 = (list_to_set (map snd results) : gset string)).
  { rewrite count_tags_dom, dom_empty_L. set_solver. }
  split; [done|]. split.
  - by rewrite <- Hdom, size_dom.
  - pose proof (count_tags_sum results ∅) as Hsum. unfold tag_sum in Hsum.
    rewrite Hsum, map_fold_empty. lia.
Qed.

(** [POST /api/convert-sign-language]: an empty [text] gets 422 from the
    request validation and a non-empty text that is blank after stripping
    gets 400, whatever the state of the components; otherwise an uninitialised tagger, then an
    uninitialised converter, gets 500.  In every other case the endpoint
    answers with the converter's result on the tagged stripped text, so the
    [KeyError] path on the converter's error dict is never taken. *)
Theorem convert_endpoint_outcomes (lower upper strip : string -> string)
  (pos_tag : string -> option (list token)) (tagger_initialized : bool)
  (cv : Core.converter) (text : string) :
  match Api.convert_to_sign_language lower upper strip pos_tag tagger_initialized cv text with
  | inl e =>
      (text = "" /\ e = Api.request_validation_error /\ Api.status_code e = 422) \/
      (text <> "" /\ strip text = "" /\
       e = Api.http_exception (400, "Please provide text input!")) \/
      (strip text <> "" /\ tagger_initialized = false /\
       e = Api.http_exception (500, "Error loading POS Tagger!")) \/
      (strip text <> "" /\ tagger_initialized = true /\ Core.is_initialized cv = false /\
       e = Api.http_exception (500, "Error loading Sign Language Converter!"))
  | inr resp =>
      text <> "" /\ strip text <> "" /\ tagger_initialized = true /\ Core.is_initialized cv = true /\
      let tagged := Tagger.tag_sentence pos_tag Tagger.core_tag_mapping true (strip text) in
      Api.resp_pos_analysis resp = tagged /\
      Api.resp_original_sentence resp = join_space (map fst tagged) /\
      Api.resp_sign_language_sequence resp =
        map fst (Core.reorder_for_sign_language (Core.categorize_words lower tagged)) /\
      Api.resp_word_details resp =
        Core.create_word_details lower upper (Core.basic_signs cv) tagged
  end.
Proof.
  unfold Api.convert_to_sign_language, Api.text_request_valid, Api.validate_text_input,
    Api.check_component_initialization.
  destruct text as [|t0 ts]; simpl; [by left|].
  destruct (strip (String t0 ts)) as [|a s] eqn:Hs; simpl; [by right; left|].
  destruct tagger_initialized; simpl; [|right; right; left; auto].
  destruct (Core.is_initialized cv) eqn:Hcv; simpl; [|right; right; right; auto].
  unfold Core.convert_to_sign_language. rewrite Hcv. simpl. auto 10.
Qed.

(** ** Dictionary report of the legacy converter *)
Lemma categorize_keys_fold (keys : list string) (cats : LegacyInfo.info_category -> list string)
  (k : LegacyInfo.info_category) :
  fold_left (fun cats word =>
               let k := LegacyInfo.info_category_of word in
               fun k' => if decide (k' = k) then cats k' ++ [word] else cats k')
            keys cats k =
  cats k ++ filter (fun w => LegacyInfo.info_category_of w = k) keys.
Proof.
  revert cats. induction keys as [|w keys IH]; intros cats; simpl.
  - by rewrite app_nil_r.
  - rewrite IH, filter_cons. cbv beta zeta.
    destruct (decide (k = LegacyInfo.info_category_of w)) as [->|Hne].
    + rewrite decide_True by done. by rewrite <- app_assoc.
    + rewrite decide_False by congruence. done.
Qed.

Lemma categorize_keys_filter (keys : list string) (k : LegacyInfo.info_category) :
  LegacyInfo.categorize_keys keys k =
  filter (fun w => LegacyInfo.info_category_of w = k) keys.
Proof. unfold LegacyInfo.categorize_keys. by rewrite categorize_keys_fold. Qed.

Lemma info_category_not_others (w : string) :
  LegacyInfo.info_category_of w <> LegacyInfo.IOthers.
Proof. unfold LegacyInfo.info_category_of. repeat case_match; discriminate. Qed.

Lemma member_spec (w : string) (l : list string) :
  LegacyInfo.member w l = true <-> w ∈ l.
Proof.
  unfold LegacyInfo.member. rewrite existsb_exists, list_elem_of_In.
  split; [intros [x [Hin Heq]]; apply String.eqb_eq in Heq; by subst|].
  intros Hin. exists w. split; [done|]. apply String.eqb_refl.
Qed.

Lemma info_category_numbers (w : string) :
  LegacyInfo.info_category_of w = LegacyInfo.INumbers <->
  w ∈ LegacyInfo.numbers /\ w <> "năm".
Proof.
  split.
  - intros H. split.
    + apply member_spec. unfold LegacyInfo.info_category_of in H.
      repeat case_match; congruence.
    + intros ->. vm_compute in H. discriminate.
  - intros [Hin Hne]. apply list_elem_of_In in Hin. simpl in Hin.
    destruct_or! Hin; subst; try done; vm_compute; reflexivity.
Qed.

Lemma info_category_time (w : string) :
  LegacyInfo.info_category_of w = LegacyInfo.ITimeWords <-> w ∈ LegacyInfo.time_words.
Proof.
  split.
  - intros H. apply member_spec. unfold LegacyInfo.info_category_of in H.
    repeat case_match; congruence.
  - intros Hin. apply list_elem_of_In in Hin. simpl in Hin.
    destruct_or! Hin; subst; try done; vm_compute; reflexivity.
Qed.

Lemma info_partition (keys : list string) :
  length (filter (fun w => LegacyInfo.info_category_of w = LegacyInfo.IPronouns) keys) +
  length (filter (fun w => LegacyInfo.info_category_of w = LegacyInfo.IVerbs) keys) +
  length (filter (fun w => LegacyInfo.info_category_of w = LegacyInfo.IAdjectives) keys) +
  length (filter (fun w => LegacyInfo.info_category_of w = LegacyInfo.INouns) keys) +
  length (filter (fun w => LegacyInfo.info_category_of w = LegacyInfo.ITimeWords) keys) +
  length (filter (fun w => LegacyInfo.info_category_of w = LegacyInfo.IQuestionWords) keys) +
  length (filter (fun w => LegacyInfo.info_category_of w = LegacyInfo.INumbers) keys) =
  length keys.
Proof.
  induction keys as [|w keys IH]; [done|]. rewrite !filter_cons.
  pose proof (info_category_not_others w).
  destruct (LegacyInfo.info_category_of w); try done;
    repeat (rewrite decide_True by done || rewrite decide_False by done);
    simpl; lia.
Qed.

(** Legacy [get_sign_dictionary_info]: the seven category counts add up to
    [total_entries] (every key is counted once, and the unreported [others]
    list stays empty); [time_words] counts the keys of its list, and
    [numbers] the keys of its list other than ["năm"], which is counted as a
    time word. *)
Theorem legacy_info_counts_partition (keys : list string) :
  let info := LegacyInfo.get_sign_dictionary_info keys in
  LegacyInfo.n_pronouns info + LegacyInfo.n_verbs info + LegacyInfo.n_adjectives info +
  LegacyInfo.n_nouns info + LegacyInfo.n_time_words info +
  LegacyInfo.n_question_words info + LegacyInfo.n_numbers info =
  LegacyInfo.total_entries info /\
  LegacyInfo.n_time_words info =
    length (filter (fun w => w ∈ LegacyInfo.time_words) keys) /\
  LegacyInfo.n_numbers info =
    length (filter (fun w => w ∈ LegacyInfo.numbers /\ w <> "năm") keys).
Proof.
  simpl. rewrite !categorize_keys_filter. split; [apply info_partition|]. split.
  - f_equal. apply list_filter_iff. apply info_category_time.
  - f_equal. apply list_filter_iff. apply info_category_numbers.
Qed.

(** ** Per-word report of the core converter *)
Lemma details_from_lookup (lower upper : string -> string) (signs : dictionary)
  (n : nat) (ws : list token) (i : nat) (t : token) :
  ws !! i = Some t ->
  Core.details_from lower upper signs n ws !! i =
  Some (Core.word_detail_of lower upper signs (n + i) t).
Proof.
  revert n i. induction ws as [|t' ws IH]; intros n [|i] Hi; simpl in *; try discriminate.
  - injection Hi as ->. by rewrite Nat.add_0_r.
  - rewrite (IH (S n) i Hi). do 2 f_equal. lia.
Qed.

Lemma details_from_length (lower upper : string -> string) (signs : dictionary)
  (n : nat) (ws : list token) :
  length (Core.details_from lower upper signs n ws) = length ws.
Proof. revert n. induction ws as [|t ws IH]; intros n; simpl; auto. Qed.

(** Core [_create_word_details]: one entry per input token, in order; the
    entry of token [i] has index [i + 1], keeps the word and the tag, has
    [in_dictionary] equal to [has_dictionary_definition], and the latter is
    true exactly when the normalised word is a key of the dictionary. *)
Theorem core_word_details_per_token (lower upper : string -> string)
  (signs : dictionary) (ws : list token) :
  let ds := Core.create_word_details lower upper signs ws in
  length ds = length ws /\
  forall i w p, ws !! i = Some (w, p) ->
    exists d, ds !! i = Some d /\
      Core.wd_index d = i + 1 /\ Core.wd_original_word d = w /\ Core.wd_pos_tag d = p /\
      Core.wd_in_dictionary d = Core.wd_has_dictionary_definition d /\
      (Core.wd_has_dictionary_definition d = true <-> is_Some (signs !! normalize lower w)).
Proof.
  simpl. unfold Core.create_word_details. split; [apply details_from_length|].
  intros i w p Hi. rewrite (details_from_lookup _ _ _ 0 ws i _ Hi).
  eexists. split; [reflexivity|]. simpl.
  unfold Core.word_detail_of. destruct (signs !! normalize lower w) eqn:E; simpl.
  - repeat split; auto; lia.
  - repeat split; try lia; try done; intros [x Hx]; discriminate.
Qed.

(** ** Analysis reports *)
(** Core [_create_analysis] as returned by [convert_to_sign_language]:
    [word_count] and [reordered_count] are the input length, and the six
    [structure_changes] counts plus the pronoun, adverb, number and
    preposition buckets (which the report leaves out) add up to it. *)
Theorem core_analysis_counts_partition (lower upper : string -> string)
  (cv : Core.converter) (ws : list token) :
  match Core.convert_to_sign_language lower upper cv ws with
  | inr r =>
      let an := Core.structure_analysis r in
      let c := Core.pos_analysis r in
      Core.word_count an = length ws /\ Core.reordered_count an = length ws /\
      Core.sc_subjects an + Core.sc_verbs an + Core.sc_objects an +
      Core.sc_adjectives an + Core.sc_time_expressions an + Core.sc_others an +
      length (c Pronouns) + length (c Adverbs) + length (c Numbers) +
      length (c Prepositions) = length ws
  | inl _ => Core.is_initialized cv = false
  end.
Proof.
  unfold Core.convert_to_sign_language.
  destruct (Core.is_initialized cv) eqn:Hcv; simpl; [|done].
  set (c := Core.categorize_words lower ws).
  assert (Hp : concat (map c all_buckets) ≡ₚ ws).
  { subst c. rewrite core_categorize_fold. apply buckets_perm_of_fold. }
  assert (Hr : Core.reorder_for_sign_language c ≡ₚ ws).
  { by rewrite core_reorder_concat, spec_order_perm_all. }
  pose proof (bucket_sizes_sum c) as Hs. rewrite (Permutation_length Hp) in Hs.
  simpl in Hs. split; [done|]. split.
  - rewrite length_map. by apply Permutation_length.
  - lia.
Qed.

Lemma vocabulary_hits_counted (lower upper : string -> string) (isupper : string -> bool)
  (d : dictionary) (l : list token) :
  length (filter (fun t : token => is_Some (d !! normalize lower t.1)) l) <=
  length (List.filter (fun s => negb (isupper s) ||
                          existsb (String.eqb s) (map snd (map_to_list d)))
                      (Legacy.convert_vocabulary lower upper d l)).
Proof.
  induction l as [|[w p] l IH]; simpl; [lia|]. rewrite filter_cons. simpl.
  destruct (d !! normalize lower w) as [s|] eqn:E.
  - rewrite decide_True by done.
    assert (Hv : existsb (String.eqb s) (map snd (map_to_list d)) = true).
    { apply existsb_exists. exists s. split; [|apply String.eqb_refl].
      apply in_map_iff. exists (normalize lower w, s). split; [done|].
      apply list_elem_of_In. by apply elem_of_map_to_list. }
    rewrite Hv, orb_true_r. simpl. lia.
  - rewrite decide_False by (intros [x Hx]; congruence).
    destruct (_ || _); simpl; lia.
Qed.

Lemma list_filter_length_le {A} (f : A -> bool) (l : list A) :
  length (List.filter f l) <= length l.
Proof. induction l as [|x l IH]; simpl; [lia|]. destruct (f x); simpl; lia. Qed.

(** Legacy [_create_analysis] as returned by [convert_to_sign_language]:
    [sign_count] equals [word_count], the five [structure_changes] counts
    plus the unreported buckets add up to it, and [vocabulary_mapped] lies
    between the number of tokens found in the dictionary and [sign_count]. *)
Theorem legacy_analysis_counts (lower upper : string -> string) (isupper : string -> bool)
  (cv : Legacy.converter) (ws : list token) :
  match Legacy.convert_to_sign_language lower upper isupper cv ws with
  | inr r =>
      let an := Legacy.structure_analysis r in
      let c := Legacy.pos_analysis r in
      Legacy.word_count an = length ws /\ Legacy.sign_count an = length ws /\
      Legacy.sc_subjects an + Legacy.sc_verbs an + Legacy.sc_objects an +
      Legacy.sc_adjectives an + Legacy.sc_others an +
      length (c Pronouns) + length (c Adverbs) + length (c Numbers) +
      length (c Prepositions) = length ws /\
      length (filter (fun t : token =>
                is_Some (Legacy.sign_dictionary cv !! normalize lower t.1)) ws) <=
        Legacy.vocabulary_mapped an <= Legacy.sign_count an
  | inl _ => Legacy.is_initialized cv = false
  end.
Proof.
  unfold Legacy.convert_to_sign_language.
  destruct (Legacy.is_initialized cv) eqn:Hcv; simpl; [|done].
  set (c := Legacy.categorize_words ws).
  assert (Hp : concat (map c all_buckets) ≡ₚ ws).
  { subst c. rewrite legacy_categorize_fold. apply buckets_perm_of_fold. }
  assert (Hr : Legacy.reorder_for_sign_language c ≡ₚ ws).
  { rewrite legacy_reorder_concat by apply legacy_no_time_bucket.
    by rewrite spec_order_perm_all. }
  assert (Ht : c TimeExpressions = []) by apply legacy_no_time_bucket.
  pose proof (bucket_sizes_sum c) as Hs. rewrite (Permutation_length Hp) in Hs.
  simpl in Hs. rewrite Ht in Hs. simpl in Hs.
  assert (Hl : length (Legacy.convert_vocabulary lower upper (Legacy.sign_dictionary cv)
                         (Legacy.reorder_for_sign_language c)) = length ws).
  { unfold Legacy.convert_vocabulary. rewrite length_map. by apply Permutation_length. }
  split; [done|]. split; [done|]. split; [lia|]. split.
  - rewrite <- (Permutation_length (filter_Permutation _ _ _ Hr)).
    apply vocabulary_hits_counted.
  - apply list_filter_length_le.
Qed.

(** ** Loaders: the entry of a key is the one of its last defining line *)
Lemma core_load_line_entry (lower upper strip : string -> string)
  (d : dictionary) (l : string) :
  Core.load_line lower upper strip d l =
  match line_entry (fun s => lower (strip s)) (fun s => upper (strip s)) strip l with
  | Some (k, v) => <[k := v]> d
  | None => d
  end.
Proof. unfold Core.load_line, line_entry. repeat case_match; simplify_eq; done. Qed.

Lemma legacy_load_line_entry (strip : string -> string) (d : dictionary) (l : string) :
  Legacy.load_line strip d l =
  match line_entry strip strip strip l with
  | Some (k, v) => <[k := v]> d
  | None => d
  end.
Proof. unfold Legacy.load_line, line_entry. repeat case_match; simplify_eq; done. Qed.

Section EntryFold.
Variable entry : string -> option (string * string).
Variable f : dictionary -> string -> dictionary.
Hypothesis f_entry : forall d l,
  f d l = match entry l with Some (k, v) => <[k := v]> d | None => d end.

Lemma fold_entries_skip (ls : list string) (d : dictionary) (k : string) :
  Forall (fun l' => fst <$> entry l' <> Some k) ls ->
  fold_left f ls d !! k = d !! k.
Proof.
  revert d. induction ls as [|l ls IH]; intros d Hls; simpl; [done|].
  apply Forall_cons in Hls as [Hl Hls]. rewrite IH by done. rewrite f_entry.
  destruct (entry l) as [[k' v']|]; [|done].
  rewrite lookup_insert_ne; [done|]. intros ->. by apply Hl.
Qed.

Lemma fold_entries_lookup (ls : list string) (k v : string) :
  fold_left f ls ∅ !! k = Some v <->
  exists ls1 l ls2, ls = ls1 ++ l :: ls2 /\ entry l = Some (k, v) /\
    Forall (fun l' => fst <$> entry l' <> Some k) ls2.
Proof.
  split.
  - induction ls as [|x ls IH] using rev_ind; simpl.
    + by rewrite lookup_empty.
    + rewrite fold_left_app. simpl. rewrite f_entry.
      destruct (entry x) as [[k' v']|] eqn:Ex.
      * destruct (decide (k' = k)) as [->|Hne].
        -- rewrite lookup_insert_eq. intros [= ->]. exists ls, x, []. auto.
        -- rewrite lookup_insert_ne by done. intros H.
           destruct (IH H) as (ls1 & l & ls2 & -> & Hl & Hls2).
           exists ls1, l, (ls2 ++ [x]). rewrite <- app_assoc. split; [done|].
           split; [done|]. apply Forall_app. split; [done|].
           apply Forall_singleton. rewrite Ex. simpl. congruence.
      * intros H. destruct (IH H) as (ls1 & l & ls2 & -> & Hl & Hls2).
        exists ls1, l, (ls2 ++ [x]). rewrite <- app_assoc. split; [done|].
        split; [done|]. apply Forall_app. split; [done|].
        apply Forall_singleton. rewrite Ex. simpl. congruence.
  - intros (ls1 & l & ls2 & -> & Hl & Hls2).
    rewrite fold_left_app. simpl. rewrite fold_entries_skip by done.
    rewrite f_entry, Hl. apply lookup_insert_eq.
Qed.

Lemma fold_entries_none (ls : list string) (d : dictionary) :
  Forall (fun l => entry l = None) ls -> fold_left f ls d = d.
Proof.
  revert d. induction ls as [|l ls IH]; intros d Hls; simpl; [done|].
  apply Forall_cons in Hls as [Hl Hls]. rewrite f_entry, Hl. by apply IH.
Qed.

End EntryFold.

(** Core loader, file read without error: a key maps to a sign exactly when
    some line defines that entry and no later line defines the key again
    (the last definition of a duplicated key wins). *)
Theorem core_loaded_entry_is_last_definition (lower upper strip : string -> string)
  (ls : list string) (k v : string) :
  Core.load_dictionary_from_file lower upper strip (FileRead ls false) !! k = Some v <->
  exists ls1 l ls2, ls = ls1 ++ l :: ls2 /\
    line_entry (fun s => lower (strip s)) (fun s => upper (strip s)) strip l = Some (k, v) /\
    Forall (fun l' => fst <$> line_entry (fun s => lower (strip s))
                                         (fun s => upper (strip s)) strip l' <> Some k) ls2.
Proof.
  simpl. apply fold_entries_lookup. apply core_load_line_entry.
Qed.

(** Legacy loader: a key maps to a sign exactly when some line read defines
    that entry and no later line read defines the key again, whether or not
    the read ends with an exception (the entries read before it are kept). *)
Theorem legacy_loaded_entry_is_last_definition (strip : string -> string)
  (ls : list string) (raises : bool) (k v : string) :
  Legacy.load_dictionary_from_file strip (FileRead ls raises) !! k = Some v <->
  exists ls1 l ls2, ls = ls1 ++ l :: ls2 /\
    line_entry strip strip strip l = Some (k, v) /\
    Forall (fun l' => fst <$> line_entry strip strip strip l' <> Some k) ls2.
Proof.
  simpl. apply fold_entries_lookup. apply legacy_load_line_entry.
Qed.

(** ** Legacy converter without entries *)
(** Legacy converter with a missing file or a file without any entry line:
    its dictionary is empty, so its sequence is the uppercased words of the
    reordered tokens and [vocabulary_mapped] counts the signs that are not
    [isupper]. *)
Theorem legacy_no_entries_uppercases (lower upper strip : string -> string)
  (isupper : string -> bool) (src : dict_source) (ws : list token) :
  (src = FileMissing \/
   exists ls raises, src = FileRead ls raises /\
                     Forall (fun l => line_entry strip strip strip l = None) ls) ->
  Legacy.sign_dictionary (Legacy.init strip src) = ∅ /\
  match Legacy.convert_to_sign_language lower upper isupper (Legacy.init strip src) ws with
  | inr r =>
      Legacy.sign_language_sequence r =
        map (fun t : token => upper t.1)
            (Legacy.reorder_for_sign_language (Legacy.categorize_words ws)) /\
      Legacy.vocabulary_mapped (Legacy.structure_analysis r) =
        length (List.filter (fun s => negb (isupper s)) (Legacy.sign_language_sequence r))
  | inl _ => False
  end.
Proof.
  intros Hsrc.
  assert (He : Legacy.load_dictionary_from_file strip src = ∅).
  { destruct Hsrc as [->|(ls & raises & -> & Hls)]; [done|]. simpl.
    apply (fold_entries_none (line_entry strip strip strip)); [|done].
    apply legacy_load_line_entry. }
  split; [exact He|].
  unfold Legacy.convert_to_sign_language, Legacy.init. simpl. rewrite He.
  assert (Hv : forall l, Legacy.convert_vocabulary lower upper ∅ l =
                         map (fun t : token => upper t.1) l).
  { intros l. unfold Legacy.convert_vocabulary. apply map_ext. intros [w p].
    by rewrite lookup_empty. }
  rewrite Hv. split; [done|]. unfold Legacy.create_analysis. simpl.
  rewrite map_to_list_empty. simpl. f_equal. apply filter_ext. intros s.
  by rewrite orb_false_r.
Qed.

(** ** A concurrent lookup raises only when the reload drops its key *)
Module KeyErrorFacts.
Import Concurrent.
Section KeyErrorFacts.
Variable lower upper strip : string -> string.
Variable word : string.
Variable pre : dictionary.
Variable src : dict_source.

Definition keyerror_inv (s : state) : Prop :=
  ReloadFacts.reload_inv strip pre src s /\
  (reader s = LChecked true ->
   is_Some (pre !! normalize lower word) \/
   (reloader s = RDone /\
    is_Some (Legacy.load_dictionary_from_file strip src !! normalize lower word))) /\
  (reader s = LDone KeyError ->
   is_Some (pre !! normalize lower word) /\
   Legacy.load_dictionary_from_file strip src !! normalize lower word = None).

Lemma keyerror_inv_initial : keyerror_inv (initial pre src).
Proof.
  split; [apply ReloadFacts.reload_inv_initial|]. split; intros H; discriminate.
Qed.

Lemma keyerror_inv_step (s s' : state) :
  step lower upper strip word s s' -> keyerror_inv s -> keyerror_inv s'.
Proof.
  intros Hs [Hr [Hc Hk]].
  pose proof (ReloadFacts.reload_inv_step lower upper strip word pre src s s' Hs Hr) as Hr'.
  split; [exact Hr'|].
  unfold ReloadFacts.reload_inv in Hr.
  destruct Hs; simpl in *.
  - split; [|done]. intros H. destruct (Hc H) as [?|[? _]]; [by left|discriminate].
  - split; [|done]. intros H. destruct (Hc H) as [?|[? _]]; [by left|discriminate].
  - split; [|done]. intros H. destruct (Hc H) as [?|[? _]]; [by left|discriminate].
  - split; [|discriminate]. intros [= Hhit].
    apply bool_decide_eq_true in Hhit.
    destruct rl; destruct_and?; subst; auto.
  - split; [discriminate|]. intros Hke.
    destruct (st !! normalize lower word) eqn:E; [discriminate|].
    destruct (Hc eq_refl) as [Hpre|[-> Hpost]].
    + destruct rl; destruct_and?; subst.
      * destruct Hpre as [x Hx]. congruence.
      * destruct Hpre as [x Hx]. congruence.
      * auto.
    + subst. destruct Hpost as [x Hx]. congruence.
  - split; discriminate.
Qed.

End KeyErrorFacts.
End KeyErrorFacts.

(** A lookup running concurrently with a reload raises [KeyError] only when
    the word's key is in the mapping before the reload and missing from the
    reloaded one; a reload that keeps the key, or a key absent before, never
    makes the lookup raise. *)
Theorem keyerror_only_if_reload_drops_key (lower upper strip : string -> string)
  (word : string) (pre : dictionary) (src : dict_source) (s : Concurrent.state) :
  rtc (Concurrent.step lower upper strip word) (Concurrent.initial pre src) s ->
  Concurrent.reader s = Concurrent.LDone Concurrent.KeyError ->
  is_Some (pre !! normalize lower word) /\
  Legacy.load_dictionary_from_file strip src !! normalize lower word = None.
Proof.
  intros Hr Hke.
  assert (Hinv : KeyErrorFacts.keyerror_inv lower strip word pre src s).
  { clear Hke. remember (Concurrent.initial pre src) as s0 eqn:Hs0.
    assert (H0 : KeyErrorFacts.keyerror_inv lower strip word pre src s0)
      by (subst; apply KeyErrorFacts.keyerror_inv_initial).
    clear Hs0. induction Hr as [|x y z Hxy _ IH]; [done|].
    apply IH. by eapply KeyErrorFacts.keyerror_inv_step. }
  destruct Hinv as (_ & _ & Hk). by apply Hk.
Qed.

Lemma keyerror_only_if_reload_drops_key_witness :
  let pre : dictionary := {["a" := "SIGN-A"]} in
  let src := FileRead ["b = SIGN-B"] false in
  let s := {| Concurrent.store := Legacy.load_dictionary_from_file ascii_strip src;
              Concurrent.reloader := Concurrent.RDone;
              Concurrent.reader := Concurrent.LDone Concurrent.KeyError |} in
  rtc (Concurrent.step ascii_lower ascii_upper ascii_strip "a")
      (Concurrent.initial pre src) s /\
  Concurrent.reader s = Concurrent.LDone Concurrent.KeyError /\
  is_Some (pre !! normalize ascii_lower "a") /\
  Legacy.load_dictionary_from_file ascii_strip src !! normalize ascii_lower "a" = None.
Proof.
  intros pre src s.
  assert (Hr : rtc (Concurrent.step ascii_lower ascii_upper ascii_strip "a")
                   (Concurrent.initial pre src) s).
  { unfold Concurrent.initial, Concurrent.reload_start, src.
    eapply rtc_l; [apply (ReloadFacts.step_check_to _ _ _ _ _ _ true);
                   vm_compute; reflexivity|].
    eapply rtc_l; [apply Concurrent.step_load_line|].
    eapply rtc_l; [apply Concurrent.step_load_end|].
    eapply rtc_l; [apply Concurrent.step_publish|].
    eapply rtc_l; [apply Concurrent.step_fetch_hit|].
    vm_compute. apply rtc_refl. }
  split; [exact Hr|]. split; [reflexivity|].
  exact (keyerror_only_if_reload_drops_key ascii_lower ascii_upper ascii_strip "a"
           pre src s Hr eq_refl).
Defined.

Lemma legacy_no_entries_uppercases_witness :
  Legacy.sign_dictionary
    (Legacy.init ascii_strip (FileRead ["# glosses"; ""; "no separator"] false)) = ∅ /\
  match Legacy.convert_to_sign_language ascii_lower ascii_upper (fun _ => true)
          (Legacy.init ascii_strip (FileRead ["# glosses"; ""; "no separator"] false))
          [("Tôi", "PRON"); ("ăn", "VERB"); ("cơm", "NOUN")] with
  | inr r =>
      Legacy.sign_language_sequence r =
        map (fun t : token => ascii_upper t.1)
            (Legacy.reorder_for_sign_language
               (Legacy.categorize_words [("Tôi", "PRON"); ("ăn", "VERB"); ("cơm", "NOUN")])) /\
      Legacy.vocabulary_mapped (Legacy.structure_analysis r) =
        length (List.filter (fun s => negb ((fun _ => true) s))
                            (Legacy.sign_language_sequence r))
  | inl _ => False
  end.
Proof.
  apply (legacy_no_entries_uppercases ascii_lower ascii_upper ascii_strip (fun _ => true)).
  right. exists ["# glosses"; ""; "no separator"], false. split; [done|].
  repeat constructor.
Defined.
